(** * extract_jobs.py: heuristic extraction of job rows from a saved page

    A shallow embedding of [src/extract_jobs.py].  Python [str] values are
    [string]s whose characters are the code points 0 to 255; case folding,
    the white space class and the word class of [re] are those of Python on
    that range (letters with accents and the two spaces 133 and 160
    included); a text with a character beyond 255 is not represented.  The
    tree built by BeautifulSoup is an inductive [node];
    an element of the tree is addressed by the path of child indices that
    leads to it from the root, which is what [id(n)] and [.parent] observe. *)

From Stdlib Require Import Ascii String DecimalString.
From stdpp Require Import base option list gmap strings.

Set Warnings "-register-all".

Local Open Scope string_scope.
Local Open Scope list_scope.

(** ** Python string primitives *)

Module Str.

(** [len(s)] *)
Definition len (s : string) : nat := String.length s.

(** Truthiness of a [str]: the empty string is falsy. *)
Definition truthy (s : string) : bool :=
  match s with EmptyString => false | String _ _ => true end.

(** [c.lower()] on one character: the capital letters A to Z and the
    capital letters with accents, 192 to 222 except the sign 215, are 32
    below their small letters; nothing else changes. *)
Definition lower_char (c : ascii) : ascii :=
  let n := nat_of_ascii c in
  if ((65 <=? n)%nat && (n <=? 90)%nat)
     || ((192 <=? n)%nat && (n <=? 222)%nat && negb (n =? 215)%nat)
  then ascii_of_nat (n + 32) else c.

(** [s.lower()] *)
Fixpoint lower (s : string) : string :=
  match s with
  | EmptyString => EmptyString
  | String c s' => String (lower_char c) (lower s')
  end.

(** [c.isspace()], also the class [\s] of [re]: tab, line feed, vertical
    tab, form feed, carriage return, the four separators 28..31, space,
    next line (133) and no-break space (160). *)
Definition is_space (c : ascii) : bool :=
  let n := nat_of_ascii c in
  ((9 <=? n)%nat && (n <=? 13)%nat) || ((28 <=? n)%nat && (n <=? 32)%nat)
  || (n =? 133)%nat || (n =? 160)%nat.

(** [s.startswith(p)] *)
Fixpoint startswith (s p : string) {struct p} : bool :=
  match p with
  | EmptyString => true
  | String c p' =>
      match s with
      | EmptyString => false
      | String d s' => Ascii.eqb c d && startswith s' p'
      end
  end.

(** [sub in s] *)
Fixpoint contains (sub s : string) : bool :=
  startswith s sub ||
  match s with
  | EmptyString => false
  | String _ s' => contains sub s'
  end.

(** [s.lstrip(chars)] for a predicate on characters. *)
Fixpoint lstrip_by (p : ascii -> bool) (s : string) : string :=
  match s with
  | EmptyString => EmptyString
  | String c s' => if p c then lstrip_by p s' else s
  end.

(** [s.rstrip(chars)] *)
Fixpoint rstrip_by (p : ascii -> bool) (s : string) : string :=
  match s with
  | EmptyString => EmptyString
  | String c s' =>
      match rstrip_by p s' with
      | EmptyString => if p c then EmptyString else String c EmptyString
      | r => String c r
      end
  end.

(** [s.strip()] *)
Definition strip (s : string) : string := rstrip_by is_space (lstrip_by is_space s).

(** [sep.join(parts)] *)
Definition join (sep : string) (parts : list string) : string := String.concat sep parts.

(** [re.sub(r"\s+", " ", s)]: every maximal run of white space becomes one
    space.  [in_run] tells that the previous character was white space. *)
Fixpoint collapse_from (in_run : bool) (s : string) : string :=
  match s with
  | EmptyString => EmptyString
  | String c s' =>
      if is_space c
      then if in_run then collapse_from true s' else String " " (collapse_from true s')
      else String c (collapse_from false s')
  end.

Definition collapse_spaces (s : string) : string := collapse_from false s.

(** Every character of [s] satisfies [p]. *)
Fixpoint all_chars (p : ascii -> bool) (s : string) : bool :=
  match s with
  | EmptyString => true
  | String c s' => p c && all_chars p s'
  end.

(** [str(n)] for a natural number. *)
Definition of_nat (n : nat) : string := NilZero.string_of_uint (Nat.to_uint n).

End Str.

(** ** The URL normalizer *)

Definition SITE_ORIGIN : string := "https://www.iimjobs.com".

Definition is_slash (c : ascii) : bool := Ascii.eqb c "/".

(** [absolutize(url)] *)
Definition absolutize (url : string) : string :=
  if negb (Str.truthy url) then url
  else if Str.startswith url "http://" || Str.startswith url "https://" then url
  else if Str.startswith url "//" then "https:" +:+ url
  else if Str.startswith url "/" then SITE_ORIGIN +:+ url
  else (SITE_ORIGIN +:+ "/") +:+ Str.lstrip_by is_slash url.

(** ** The document tree *)

(** The attributes the program reads: [class] (a list of tokens, as
    BeautifulSoup stores it) and [href]; [None] is an absent attribute. *)
Record attributes := {
  attr_class : option (list string);
  attr_href : option string
}.

Inductive node :=
| NavigableString (text : string)
| Tag (name : string) (attrs : attributes) (contents : list node).

(** An element of a tree: the path of child indices from the root of the
    tree, and the subtree found there.  The path is the identity of the
    element: two equal subtrees at different places are different elements. *)
Definition element : Type := list nat * node.

Definition forest (sub : list nat -> node -> list element) (p : list nat)
  : nat -> list node -> list element :=
  fix go (i : nat) (cs : list node) : list element :=
    match cs with
    | [] => []
    | c :: cs' => sub (p ++ [i]) c ++ go (S i) cs'
    end.

(** The element at [p] followed by everything below it, in document order. *)
Fixpoint subtree (p : list nat) (n : node) {struct n} : list element :=
  (p, n) ::
  match n with
  | NavigableString _ => []
  | Tag _ _ cs => forest subtree p 0 cs
  end.

(** [e.descendants] *)
Definition descendants (e : element) : list element :=
  match e.2 with
  | NavigableString _ => []
  | Tag _ _ cs => forest subtree e.1 0 cs
  end.

(** [e.name == name] for a tag; a string has no tag name. *)
Definition is_tag (name : string) (e : element) : bool :=
  match e.2 with
  | NavigableString _ => false
  | Tag nm _ _ => String.eqb nm name
  end.

Definition is_any_tag (e : element) : bool :=
  match e.2 with
  | NavigableString _ => false
  | Tag _ _ _ => true
  end.

(** [e.get("href")] *)
Definition get_href (e : element) : option string :=
  match e.2 with
  | NavigableString _ => None
  | Tag _ a _ => attr_href a
  end.

(** [e.has_attr("href")] *)
Definition has_href (e : element) : bool :=
  match get_href e with Some _ => true | None => false end.

(** [e.get("class")] *)
Definition get_class (e : element) : option (list string) :=
  match e.2 with
  | NavigableString _ => None
  | Tag _ a _ => attr_class a
  end.

(** [e.find_all(name)] *)
Definition find_all (name : string) (e : element) : list element :=
  List.filter (fun d => is_tag name d) (descendants e).

(** [e.find_all(True)] *)
Definition find_all_tags (e : element) : list element :=
  List.filter (fun d => is_any_tag d) (descendants e).

(** [e.find_all(name, href=True)] *)
Definition find_all_href (name : string) (e : element) : list element :=
  List.filter (fun d => is_tag name d && has_href d) (descendants e).

(** [e.find(name)] *)
Definition find (name : string) (e : element) : option element :=
  head (find_all name e).

(** [e.find(name, href=True)] *)
Definition find_href (name : string) (e : element) : option element :=
  head (find_all_href name e).

(** The subtree of [n] reached by the path [p]. *)
Fixpoint node_at (n : node) (p : list nat) : option node :=
  match p with
  | [] => Some n
  | i :: p' =>
      match n with
      | NavigableString _ => None
      | Tag _ _ cs =>
          match cs !! i with
          | Some c => node_at c p'
          | None => None
          end
      end
  end.

(** [e.parent] inside the tree rooted at [soup]; the root has no parent. *)
Definition parent (soup : node) (e : element) : option element :=
  match e.1 with
  | [] => None
  | _ :: _ =>
      let pp := removelast e.1 in
      match node_at soup pp with
      | Some n => Some (pp, n)
      | None => None
      end
  end.

(** The strings [get_text] collects: every [NavigableString] below [e]. *)
Definition all_strings (e : element) : list string :=
  flat_map (fun d => match d.2 with NavigableString s => [s] | Tag _ _ _ => [] end)
           (descendants e).

(** [e.get_text(sep, strip=True)]: each string stripped, the empty ones
    dropped, the others joined by [sep]. *)
Definition get_text_stripped (sep : string) (e : element) : string :=
  Str.join sep (List.filter Str.truthy (map Str.strip (all_strings e))).

(** [extract_visible_text(node)] *)
Definition extract_visible_text (e : element) : string :=
  let text := get_text_stripped " " e in
  Str.collapse_spaces text.

(** [has_class_like(node, substrings)] *)
Definition has_class_like (e : element) (substrings : list string) : bool :=
  let classes := default [] (get_class e) in
  let class_attr := Str.lower (Str.join " " classes) in
  existsb (fun sub => Str.contains sub class_attr) substrings.

(** ** The container locator *)

Definition CONTAINER_TAGS : list string := ["article"; "li"; "div"; "section"].

Definition CONTAINER_HINTS : list string :=
  ["job"; "listing"; "result"; "card"; "opening"; "vacancy"; "position"].

(** Truthiness of an optional element: [None] is falsy, a tag is truthy. *)
Definition is_Some_b {A} (o : option A) : bool :=
  match o with Some _ => true | None => false end.

(** The test of the inner loop of [find_job_containers]. *)
Definition is_candidate (e : element) : bool :=
  has_class_like e CONTAINER_HINTS && is_Some_b (find "a" e).

(** The list [candidates] at the end of the two nested loops. *)
Definition candidates (soup : element) : list element :=
  flat_map (fun tag_name => List.filter is_candidate (find_all tag_name soup))
           CONTAINER_TAGS.

(** One turn of the loop that removes elements already seen, on the pair
    ([uniq], [seen]); the key is the identity of the element. *)
Definition uniq_step (acc : list element * gset (list nat)) (n : element)
  : list element * gset (list nat) :=
  let key := n.1 in
  if decide (key ∈ acc.2) then acc else (acc.1 ++ [n], acc.2 ∪ {[key]}).

(** [find_job_containers(soup)] *)
Definition find_job_containers (soup : element) : list element :=
  (foldl uniq_step ([], ∅) (candidates soup)).1.

(** ** A backtracking matcher for the patterns of the program *)

Module Re.

(** The constructs the two patterns use.  Repetition is greedy and, as in
    both patterns, only ever applied to a class of characters. *)
Inductive regex :=
| Eps
| Chr (p : ascii -> bool)
| Seq (r1 r2 : regex)
| Alt (r1 r2 : regex)
| Star (p : ascii -> bool)
| Opt (r : regex)
| Group (n : nat) (r : regex)
| WordB.

(** A position in the subject: the character before it, its offset, the
    text from it on, and the groups closed so far (latest first). *)
Record mstate := {
  before : option ascii;
  pos : nat;
  rest : string;
  groups : list (nat * string)
}.

(** The class [\w]: letters, digits and the underscore; above 127 these
    are the ordinal indicators 170 and 186, the superscript digits 178, 179
    and 185, the micro sign 181, the fractions 188 to 190, and the letters
    192 to 255 except the signs 215 and 247. *)
Definition is_word (c : ascii) : bool :=
  let n := nat_of_ascii c in
  ((48 <=? n)%nat && (n <=? 57)%nat) || ((65 <=? n)%nat && (n <=? 90)%nat)
  || ((97 <=? n)%nat && (n <=? 122)%nat) || (n =? 95)%nat
  || (n =? 170)%nat || (n =? 178)%nat || (n =? 179)%nat || (n =? 181)%nat
  || (n =? 185)%nat || (n =? 186)%nat || ((188 <=? n)%nat && (n <=? 190)%nat)
  || ((192 <=? n)%nat && negb (n =? 215)%nat && negb (n =? 247)%nat).

Definition is_word_opt (o : option ascii) : bool :=
  match o with Some c => is_word c | None => false end.

Definition next_char (s : string) : option ascii :=
  match s with EmptyString => None | String c _ => Some c end.

(** [\b]: exactly one side of the position is a word character. *)
Definition at_word_boundary (st : mstate) : bool :=
  xorb (is_word_opt (before st)) (is_word_opt (next_char (rest st))).

(** Greedy [p*] followed by the continuation [k]: the longest run first,
    then one character less each time [k] fails. *)
Fixpoint star (p : ascii -> bool) (k : mstate -> option mstate)
    (b : option ascii) (i : nat) (gs : list (nat * string)) (s : string)
    {struct s} : option mstate :=
  let here := {| before := b; pos := i; rest := s; groups := gs |} in
  match s with
  | EmptyString => k here
  | String c s' =>
      if p c
      then match star p k (Some c) (S i) gs s' with
           | Some r => Some r
           | None => k here
           end
      else k here
  end.

(** [run r st k]: match [r] at [st], then [k]; the first success in
    backtracking order. *)
Fixpoint run (r : regex) (st : mstate) (k : mstate -> option mstate)
    {struct r} : option mstate :=
  match r with
  | Eps => k st
  | Chr p =>
      match rest st with
      | EmptyString => None
      | String c s' =>
          if p c
          then k {| before := Some c; pos := S (pos st); rest := s'; groups := groups st |}
          else None
      end
  | Seq r1 r2 => run r1 st (fun st' => run r2 st' k)
  | Alt r1 r2 =>
      match run r1 st k with
      | Some res => Some res
      | None => run r2 st k
      end
  | Star p => star p k (before st) (pos st) (groups st) (rest st)
  | Opt r1 =>
      match run r1 st k with
      | Some res => Some res
      | None => k st
      end
  | Group n r1 =>
      run r1 st (fun st' =>
        k {| before := before st'; pos := pos st'; rest := rest st';
             groups := (n, String.substring 0 (pos st' - pos st) (rest st)) :: groups st' |})
  | WordB => if at_word_boundary st then k st else None
  end.

(** What it means for a pattern to match from one position to another,
    whatever the order in which the matcher tries the possibilities. *)
Inductive matches : regex -> mstate -> mstate -> Prop :=
| m_eps st : matches Eps st st
| m_chr p st c s' :
    rest st = String c s' -> p c = true ->
    matches (Chr p) st
      {| before := Some c; pos := S (pos st); rest := s'; groups := groups st |}
| m_seq r1 r2 st st1 st2 :
    matches r1 st st1 -> matches r2 st1 st2 -> matches (Seq r1 r2) st st2
| m_alt_l r1 r2 st st' : matches r1 st st' -> matches (Alt r1 r2) st st'
| m_alt_r r1 r2 st st' : matches r2 st st' -> matches (Alt r1 r2) st st'
| m_star_stop p st : matches (Star p) st st
| m_star_step p st c s' st' :
    rest st = String c s' -> p c = true ->
    matches (Star p)
      {| before := Some c; pos := S (pos st); rest := s'; groups := groups st |} st' ->
    matches (Star p) st st'
| m_opt_some r st st' : matches r st st' -> matches (Opt r) st st'
| m_opt_none r st : matches (Opt r) st st
| m_group n r st st' :
    matches r st st' ->
    matches (Group n r) st
      {| before := before st'; pos := pos st'; rest := rest st';
         groups := (n, String.substring 0 (pos st' - pos st) (rest st)) :: groups st' |}
| m_wordb st : at_word_boundary st = true -> matches WordB st st.

(** The pattern read the text [w] between the two positions and closed no
    group. *)
Definition reads (st : mstate) (w : string) (st' : mstate) : Prop :=
  rest st = w +:+ rest st'
  /\ pos st' = pos st + String.length w
  /\ groups st' = groups st.

(** The character before the position reached by reading [s] from a
    position that [b] precedes. *)
Fixpoint last_or (b : option ascii) (s : string) : option ascii :=
  match s with
  | EmptyString => b
  | String c s' => last_or (Some c) s'
  end.

(** [re.search]: the match at the leftmost start that has one. *)
Fixpoint search_from (r : regex) (b : option ascii) (i : nat) (s : string)
    {struct s} : option mstate :=
  match run r {| before := b; pos := i; rest := s; groups := [] |} Some with
  | Some res => Some res
  | None =>
      match s with
      | EmptyString => None
      | String c s' => search_from r (Some c) (S i) s'
      end
  end.

Definition search (r : regex) (s : string) : option mstate := search_from r None 0 s.

(** [m.group(n)] of a group that took part in the match. *)
Fixpoint lookup_group (n : nat) (gs : list (nat * string)) : string :=
  match gs with
  | [] => EmptyString
  | (m, s) :: gs' => if (m =? n)%nat then s else lookup_group n gs'
  end.

Definition group (n : nat) (m : mstate) : string := lookup_group n (groups m).

(** Concatenation of a list of patterns. *)
Fixpoint cat (rs : list regex) : regex :=
  match rs with
  | [] => Eps
  | [r] => r
  | r :: rs' => Seq r (cat rs')
  end.

(** One literal character under [re.I]. *)
Definition chr_i (c : ascii) : regex :=
  Chr (fun d => Ascii.eqb (Str.lower_char d) (Str.lower_char c)).

(** A literal word under [re.I]. *)
Fixpoint word_i (w : string) : regex :=
  match w with
  | EmptyString => Eps
  | String c EmptyString => chr_i c
  | String c w' => Seq (chr_i c) (word_i w')
  end.

Definition chr (c : ascii) : regex := Chr (Ascii.eqb c).

(** [p+] *)
Definition plus (p : ascii -> bool) : regex := Seq (Chr p) (Star p).

(** [[:|-]] *)
Definition is_sep (c : ascii) : bool :=
  Ascii.eqb c ":" || Ascii.eqb c "|" || Ascii.eqb c "-".

(** [[^|\n]] *)
Definition not_bar_nl (c : ascii) : bool :=
  negb (Ascii.eqb c "|" || Ascii.eqb c "010").

(** [[0-9]] *)
Definition is_digit (c : ascii) : bool :=
  let n := nat_of_ascii c in (48 <=? n)%nat && (n <=? 57)%nat.

End Re.

(** [r"\b(Location|City)\s*[:|-]\s*([^|\n]+)"] with [re.I] *)
Definition LOCATION_RE : Re.regex :=
  Re.cat [ Re.WordB;
           Re.Group 1 (Re.Alt (Re.word_i "Location") (Re.word_i "City"));
           Re.Star Str.is_space;
           Re.Chr Re.is_sep;
           Re.Star Str.is_space;
           Re.Group 2 (Re.plus Re.not_bar_nl) ].

(** [r"\b(Exp|Experience)\s*[:|-]?\s*([0-9]+\+?\s*-?\s*[0-9]*\s*years?)"] with [re.I] *)
Definition EXPERIENCE_RE : Re.regex :=
  Re.cat [ Re.WordB;
           Re.Group 1 (Re.Alt (Re.word_i "Exp") (Re.word_i "Experience"));
           Re.Star Str.is_space;
           Re.Opt (Re.Chr Re.is_sep);
           Re.Star Str.is_space;
           Re.Group 2 (Re.cat [ Re.plus Re.is_digit;
                                Re.Opt (Re.chr "+");
                                Re.Star Str.is_space;
                                Re.Opt (Re.chr "-");
                                Re.Star Str.is_space;
                                Re.Star Re.is_digit;
                                Re.Star Str.is_space;
                                Re.word_i "year";
                                Re.Opt (Re.chr_i "s") ]) ].

(** ** The field extractors *)

(** [x or ""] for an optional string. *)
Definition or_empty (o : option string) : string :=
  match o with
  | Some s => if Str.truthy s then s else ""
  | None => ""
  end.

(** The test of step 1 of [choose_title] on a lowercased [href]. *)
Definition is_job_href (href : string) : bool :=
  Str.contains "/j/" href
  || (Str.contains "iimjobs.com" href
      && (Str.contains "/j/" href || Str.contains "/job" href)).

(** [len(extract_visible_text(e)) >= 5] *)
Definition has_title_text (e : element) : bool :=
  (5 <=? Str.len (extract_visible_text e))%nat.

(** Step 1: the first anchor with a job link and enough text. *)
Definition title_from_job_anchor (node : element) : option element :=
  List.find (fun a => is_job_href (Str.lower (or_empty (get_href a))) && has_title_text a)
            (find_all_href "a" node).

(** Step 2: the loop over the heading names; [node.find(h)] looks at the
    first heading of each name only. *)
Fixpoint title_from_heading (node : element) (hs : list string) : option element :=
  match hs with
  | [] => None
  | h :: hs' =>
      match find h node with
      | Some hnode =>
          if has_title_text hnode then Some hnode else title_from_heading node hs'
      | None => title_from_heading node hs'
      end
  end.

(** Step 3: the first anchor with enough text. *)
Definition title_from_any_anchor (node : element) : option element :=
  List.find has_title_text (find_all "a" node).

Definition HEADINGS : list string := ["h1"; "h2"; "h3"; "h4"].

(** [choose_title(node)] *)
Definition choose_title (node : element) : option element :=
  match title_from_job_anchor node with
  | Some a => Some a
  | None =>
      match title_from_heading node HEADINGS with
      | Some hnode => Some hnode
      | None => title_from_any_anchor node
      end
  end.

(** The loop shared by the class-based stages: the text of the first
    descendant tag with a class hint whose text passes [ok]. *)
Definition first_hinted_text (hints : list string) (ok : string -> bool) (node : element)
  : option string :=
  option_map extract_visible_text
    (List.find (fun el => has_class_like el hints && ok (extract_visible_text el))
               (find_all_tags node)).

(** [txt and len(txt) >= 2] *)
Definition at_least_two (txt : string) : bool :=
  Str.truthy txt && (2 <=? Str.len txt)%nat.

(** [choose_company(node)] *)
Definition choose_company (node : element) : option string :=
  first_hinted_text ["company"; "employer"; "org"; "firm"; "recruiter"] at_least_two node.

Definition LOCATION_HINTS : list string := ["location"; "loc"; "city"; "place"].

(** The second stage of [choose_location], on the text of the container. *)
Definition location_in_text (text : string) : option string :=
  match Re.search LOCATION_RE text with
  | Some m => Some (Str.strip (Re.group 2 m))
  | None => None
  end.

(** [choose_location(node)] *)
Definition choose_location (node : element) : option string :=
  match first_hinted_text LOCATION_HINTS at_least_two node with
  | Some txt => Some txt
  | None => location_in_text (extract_visible_text node)
  end.

(** The first stage of [choose_experience], on the text of the container. *)
Definition experience_in_text (text : string) : option string :=
  match Re.search EXPERIENCE_RE text with
  | Some m => Some (Str.strip (Re.group 2 m))
  | None => None
  end.

(** [choose_experience(node)] *)
Definition choose_experience (node : element) : option string :=
  match experience_in_text (extract_visible_text node) with
  | Some txt => Some txt
  | None => first_hinted_text ["exp"; "experience"] Str.truthy node
  end.

(** [choose_link(title_node)]; [soup] is the tree [title_node] lives in,
    which is where its parent is found. *)
Definition choose_link (soup : node) (title_node : element) : option string :=
  if is_tag "a" title_node && has_href title_node then get_href title_node
  else
    match find_href "a" title_node with
    | Some a => get_href a
    | None =>
        match parent soup title_node with
        | Some p =>
            match find_href "a" p with
            | Some a => get_href a
            | None => None
            end
        | None => None
        end
    end.

(** ** Rows and the deduplicator *)

Record JobRecord := {
  Title : string;
  Company : string;
  Location : string;
  Experience : string;
  Link : string
}.

(** The key of a row in [dedupe_jobs]. *)
Definition row_key (r : JobRecord) : string * string :=
  (Str.strip (Str.lower (Title r)), Str.strip (Str.lower (Link r))).

(** One turn of the loop of [dedupe_jobs] on the pair ([unique_rows], [seen]). *)
Definition dedupe_step (acc : list JobRecord * gset (string * string)) (r : JobRecord)
  : list JobRecord * gset (string * string) :=
  let key := row_key r in
  if decide (key ∈ acc.2) then acc else (acc.1 ++ [r], acc.2 ∪ {[key]}).

(** [dedupe_jobs(rows)] *)
Definition dedupe_jobs (rows : list JobRecord) : list JobRecord :=
  (foldl dedupe_step ([], ∅) rows).1.

(** ** The pipeline *)

Definition SITE_DOMAIN : string := "iimjobs.com".

(** The test of the fallback loop on the stripped, lowercased [href]. *)
Definition is_site_href (h : string) : bool :=
  Str.contains SITE_DOMAIN h || Str.startswith h "/j/" || Str.contains "/job" h.

(** The stripped [href] of an anchor in the fallback loop. *)
Definition stripped_href (a : element) : string :=
  Str.strip (or_empty (get_href a)).

(** The body of the fallback loop: the row appended for the anchor [a], or
    nothing when the loop goes on to the next anchor. *)
Definition fallback_row (a : element) : option JobRecord :=
  let href := stripped_href a in
  if negb (Str.truthy href) then None
  else
    let h := Str.lower href in
    if is_site_href h
    then
      let title_text := extract_visible_text a in
      Some {| Title := or_empty (Some title_text);
              Company := "";
              Location := "";
              Experience := "";
              Link := absolutize href |}
    else None.

(** [results] at the end of the fallback loop. *)
Definition fallback_rows (soup : element) : list JobRecord :=
  foldl (fun results a =>
           match fallback_row a with
           | Some r => results ++ [r]
           | None => results
           end)
        [] (find_all_href "a" soup).

(** [not title_text and not link] *)
Definition both_empty (title_text link : string) : bool :=
  negb (Str.truthy title_text) && negb (Str.truthy link).

(** The body of the container loop: the row appended for [node], or nothing
    when the loop goes on to the next container. *)
Definition container_row (soup : node) (node : element) : option JobRecord :=
  match choose_title node with
  | None => None
  | Some title_node =>
      let title_text := extract_visible_text title_node in
      let link := or_empty (choose_link soup title_node) in
      let company := or_empty (choose_company node) in
      let location := or_empty (choose_location node) in
      let experience := or_empty (choose_experience node) in
      if both_empty title_text link then None
      else
        Some {| Title := title_text;
                Company := company;
                Location := location;
                Experience := experience;
                Link := if Str.truthy link then absolutize link else "" |}
  end.

(** [results] at the end of the container loop. *)
Definition container_rows (soup : node) (containers : list element) : list JobRecord :=
  foldl (fun results node =>
           match container_row soup node with
           | Some r => results ++ [r]
           | None => results
           end)
        [] containers.

(** [extract_jobs], from the parsed document on: [soup] is the tree that
    BeautifulSoup builds from the text of the file. *)
Definition extract_jobs (soup : node) : list JobRecord :=
  let root : element := ([], soup) in
  let containers := find_job_containers root in
  match containers with
  | [] => dedupe_jobs (fallback_rows root)
  | _ :: _ => dedupe_jobs (container_rows soup containers)
  end.

(** ** The entry point *)

Definition INPUT_PATH : string := "/workspace/Page_49_htmlr1.htm".
Definition OUTPUT_XLSX : string := "/workspace/jobs_page49.xlsx".
Definition COLUMNS : list string := ["Title"; "Company"; "Location"; "Experience"; "Link"].

(** What [main] can observe of the file system: the parsed content of the
    file at [INPUT_PATH] when that path exists, and whether the workbook
    can be written. *)
Record world := {
  input_page : option node;
  output_writable : bool
}.

(** What [main] does to the outside. *)
Inductive event :=
| ToStdout (line : string)
| ToStderr (line : string)
| ReadPage (path : string)
| WroteSheet (path sheet : string) (columns : list string) (rows : list JobRecord).

(** A computation reads the world, extends the trace of events, and either
    returns a value or stops on an exception that nothing catches ([None]). *)
Definition IO (A : Type) : Type := world -> list event -> option A * list event.

#[global] Instance IO_ret : MRet IO := fun A x _ tr => (Some x, tr).

#[global] Instance IO_bind : MBind IO := fun A B f m w tr =>
  match m w tr with
  | (Some x, tr') => f x w tr'
  | (None, tr') => (None, tr')
  end.

(** [INPUT_PATH.exists()] *)
Definition input_exists : IO bool := fun w tr => (Some (is_Some_b (input_page w)), tr).

(** [print(line)] *)
Definition print_out (line : string) : IO unit := fun _ tr => (Some tt, tr ++ [ToStdout line]).

(** [print(line, file=sys.stderr)] *)
Definition print_err (line : string) : IO unit := fun _ tr => (Some tt, tr ++ [ToStderr line]).

(** [html_path.read_text(...)] followed by the parse. *)
Definition read_page (path : string) : IO node := fun w tr =>
  match input_page w with
  | Some soup => (Some soup, tr ++ [ReadPage path])
  | None => (None, tr)
  end.

(** The [with pd.ExcelWriter(...)] block. *)
Definition write_sheet (path sheet : string) (columns : list string) (rows : list JobRecord)
  : IO unit := fun w tr =>
  if output_writable w then (Some tt, tr ++ [WroteSheet path sheet columns rows])
  else (None, tr).

(** [extract_jobs(html_path)], with the read it starts with. *)
Definition extract_jobs_from (path : string) : IO (list JobRecord) :=
  soup ← read_page path;
  mret (extract_jobs soup).

(** [main()] *)
Definition main : IO nat :=
  found ← input_exists;
  if negb found then
    print_err ("Input HTML not found: " +:+ INPUT_PATH);;
    mret 2
  else
    jobs ← extract_jobs_from INPUT_PATH;
    df ← match jobs with
         | [] => print_out "No jobs found. Exporting an empty sheet with headers.";; mret []
         | _ :: _ => mret jobs
         end;
    write_sheet OUTPUT_XLSX "Jobs" COLUMNS df;;
    print_out ("Wrote " +:+ Str.of_nat (length df) +:+ " rows to " +:+ OUTPUT_XLSX);;
    mret 0.

(** The process: [main] from an empty trace. *)
Definition run_main (w : world) : option nat * list event := main w [].

(** ** Keeping first occurrences, as the specification words it *)

(** Items in their original order; an item is kept when no item before it in
    the input has the same key ([earlier] holds the keys met so far), and
    dropped otherwise. *)
Fixpoint first_by {A K : Type} `{EqDecision K} (key : A -> K) (earlier : list K)
    (xs : list A) : list A :=
  match xs with
  | [] => []
  | x :: rest =>
      if decide (key x ∈ earlier)
      then first_by key (earlier ++ [key x]) rest
      else x :: first_by key (earlier ++ [key x]) rest
  end.

(** The Row Identity Key of the specification: the Title and the Link, each
    lowercased and trimmed; Company, Location and Experience take no part. *)
Definition identity_key (r : JobRecord) : string * string :=
  (Str.strip (Str.lower (Title r)), Str.strip (Str.lower (Link r))).

(** The Deduplicator of the specification: first occurrence of each Row
    Identity Key. *)
Definition keep_first_occurrences (rows : list JobRecord) : list JobRecord :=
  first_by identity_key [] rows.

(** ** The container locator, as the specification words it *)

(** The class tokens of an element; none when it has no [class]. *)
Definition class_tokens (e : element) : list string := default [] (get_class e).

(** The token contains one of the hints as a substring, case-insensitively. *)
Definition token_has_hint (hints : list string) (token : string) : bool :=
  existsb (fun hint => Str.contains hint (Str.lower token)) hints.

(** The element contains at least one hyperlink descendant. *)
Definition has_hyperlink (e : element) : bool := existsb (is_tag "a") (descendants e).

(** The two conditions (a) and (b) on a candidate. *)
Definition qualifies (e : element) : bool :=
  existsb (token_has_hint CONTAINER_HINTS) (class_tokens e) && has_hyperlink e.

(** The qualifying elements met by the scans, one tag name after the other,
    each scan in document order. *)
Definition qualifying_elements (soup : element) : list element :=
  flat_map (fun tag_name =>
              List.filter (fun e => is_tag tag_name e && qualifies e) (descendants soup))
           CONTAINER_TAGS.

(** A hint that is not empty and holds no space. *)
Definition plain_hint (hint : string) : bool :=
  Str.truthy hint && negb (Str.contains " " hint).

(** ** The heading step, as the claim reads it *)

(** The headings of the container, level after level and each level in
    document order, and the first of them with enough text. *)
Definition first_long_heading (node : element) : option element :=
  List.find has_title_text (flat_map (fun h => find_all h node) HEADINGS).

(** ** The location pattern, as the specification words it *)



(** The letter [c] of a word, read without regard to case, accepts the
    character [d]: among the code points 0 to 255 these are the letter itself
    and its other case. *)
Definition accepts_i (c d : ascii) : bool :=
  Ascii.eqb (Str.lower_char d) (Str.lower_char c).

(** [marker] spells [word] without regard to case: as many characters, each
    accepted by the letter in its place. *)
Fixpoint spells (word marker : string) : bool :=
  match word, marker with
  | EmptyString, EmptyString => true
  | String c word', String d marker' => accepts_i c d && spells word' marker'
  | _, _ => false
  end.

(** An occurrence of the pattern of the program in [text]: after [pre], and
    not right after a word character, the word [marker], white space [ws1],
    the separator [sep], white space [ws2], and the non-empty run [run]
    without "|" and line feed; [post] is what follows. *)
Definition location_occurrence (text pre marker ws1 : string) (sep : ascii)
    (ws2 run post : string) : Prop :=
  text = pre +:+ marker +:+ ws1 +:+ String sep (ws2 +:+ run +:+ post)
  /\ Re.is_word_opt (Re.last_or None pre) = false
  /\ (spells "Location" marker = true \/ spells "City" marker = true)
  /\ Str.all_chars Str.is_space ws1 = true
  /\ Re.is_sep sep = true
  /\ Str.all_chars Str.is_space ws2 = true
  /\ Str.truthy run = true
  /\ Str.all_chars Re.not_bar_nl run = true.

(** The occurrence that the search settles on: none starts further to the
    left; the white space after the separator is as long as it can be with a
    character of the run after it; and the run goes on to the end of the
    text or to the first "|" or line feed. *)
Definition first_location_occurrence (text pre marker ws1 : string) (sep : ascii)
    (ws2 run post : string) : Prop :=
  location_occurrence text pre marker ws1 sep ws2 run post
  /\ (forall pre' marker' ws1' sep' ws2' run' post',
        location_occurrence text pre' marker' ws1' sep' ws2' run' post' ->
        String.length pre <= String.length pre')
  /\ (forall ws2' c rest',
        ws2 +:+ run +:+ post = ws2' +:+ String c rest' ->
        Str.all_chars Str.is_space ws2' = true ->
        Re.not_bar_nl c = true ->
        String.length ws2' <= String.length ws2)
  /\ (post = "" \/ exists c post', post = String c post' /\ Re.not_bar_nl c = false).



(** ** The fallback scanner, as the specification words it *)

(** The [href] of a hyperlink as the scan reads it: the attribute without
    the white space around it, empty when the attribute is absent. *)
Definition anchor_href (a : element) : string :=
  Str.strip (match get_href a with Some h => h | None => "" end).

(** The hyperlink has a non-empty [href] whose lowercased form contains the
    site domain, or starts with "/j/", or contains "/job". *)
Definition anchor_qualifies (a : element) : bool :=
  Str.truthy (anchor_href a)
  && (Str.contains "iimjobs.com" (Str.lower (anchor_href a))
      || Str.startswith (Str.lower (anchor_href a)) "/j/"
      || Str.contains "/job" (Str.lower (anchor_href a))).

(** The row of a qualifying hyperlink: its normalized visible text as
    Title, the absolutized [href] as Link, the other fields empty. *)
Definition anchor_row (a : element) : JobRecord :=
  {| Title := extract_visible_text a;
     Company := "";
     Location := "";
     Experience := "";
     Link := absolutize (anchor_href a) |}.

(** The rows of the qualifying hyperlinks of the document, in document
    order, before the Deduplicator. *)
Definition scanned_rows (soup : node) : list JobRecord :=
  map anchor_row (List.filter anchor_qualifies (find_all "a" ([], soup))).

(** ** Sample documents *)

Definition no_attrs : attributes := {| attr_class := None; attr_href := None |}.
Definition with_class (tokens : list string) : attributes :=
  {| attr_class := Some tokens; attr_href := None |}.
Definition with_href (href : string) : attributes :=
  {| attr_class := None; attr_href := Some href |}.

(** A job card as the site writes them. *)
Definition sample_card : node :=
  Tag "div" (with_class ["job-card"; "clearfix"])
    [ Tag "h2" no_attrs
        [ Tag "a" (with_href "/j/123") [NavigableString "Senior  Analyst"] ];
      Tag "span" (with_class ["company"]) [NavigableString "Acme Corp"];
      NavigableString " Location: Mumbai | Exp: 3-5 years " ].

Definition sample_page : node := Tag "[document]" no_attrs [sample_card].

(** A page without any container: a job link, a link that is not about a
    job, and a job link around an image, without text. *)
Definition links_page : node :=
  Tag "[document]" no_attrs
    [ Tag "p" no_attrs [ Tag "a" (with_href "/j/123") [NavigableString "Plant Manager"] ];
      Tag "a" (with_href "/about") [NavigableString "About"];
      Tag "a" (with_href " /jobs/all ") [ Tag "img" no_attrs [] ] ].

(** A card whose first top-level heading is a short badge, followed by a
    second heading of the same level with the job title. *)
Definition badge_card : node :=
  Tag "div" (with_class ["job"])
    [ Tag "h1" no_attrs [NavigableString "New"];
      Tag "h1" no_attrs [NavigableString "Senior Engineer"];
      Tag "a" (with_href "/apply") [NavigableString "Apply now"] ].

(** A card whose title is in a heading of the fourth level, below a short
    heading of the third. *)
Definition headed_card : node :=
  Tag "div" (with_class ["job"])
    [ Tag "h3" no_attrs [NavigableString "Jobs"];
      Tag "h4" no_attrs [NavigableString "Plant Manager"];
      Tag "a" (with_href "/apply") [NavigableString "Apply now"] ].



(** A page without any container whose two job links differ in case only,
    in the [href] and in the text. *)
Definition shadowed_link_page : node :=
  Tag "[document]" no_attrs
    [ Tag "a" (with_href "/J/123") [NavigableString "View"];
      Tag "a" (with_href "/j/123") [NavigableString "view"] ].

(** Two rows that differ in the case of the Title (with a capital letter
    with an accent, code 201, against its small letter, code 233), in the
    white space around it and in the Company. *)
Definition cafe_rows : list JobRecord :=
  [ {| Title := "CAF" +:+ String "201" " Manager"; Company := "Acme"; Location := "Pune";
       Experience := "2 years"; Link := "https://www.iimjobs.com/j/1" |};
    {| Title := " caf" +:+ String "233" " manager "; Company := "Globex"; Location := "Delhi";
       Experience := ""; Link := "HTTPS://www.iimjobs.com/j/1" |} ].

(** A page with nothing in it. *)
Definition empty_page : node := Tag "[document]" no_attrs [].

(** ** Normal forms of text *)

(** The text does not start with white space. *)
Definition starts_clean (s : string) : bool :=
  match s with
  | EmptyString => true
  | String c _ => negb (Str.is_space c)
  end.

(** The last character of the text is not white space; for the empty text,
    [after_space] tells whether white space comes just before it. *)
Fixpoint ends_clean_from (after_space : bool) (s : string) : bool :=
  match s with
  | EmptyString => negb after_space
  | String c s' => ends_clean_from (Str.is_space c) s'
  end.

(** Every white space character of the text is one space, no two of them
    are adjacent, and the text does not end with one; [after_space] tells
    whether a space comes just before the text, in which case the text does
    not start with one either. *)
Fixpoint single_spaced_from (after_space : bool) (s : string) : bool :=
  match s with
  | EmptyString => negb after_space
  | String c s' =>
      if Str.is_space c
      then Ascii.eqb c " " && negb after_space && single_spaced_from true s'
      else single_spaced_from false s'
  end.

(** Words separated by single spaces, without white space at either end;
    the empty text is normalized. *)
Definition normalized (s : string) : bool :=
  match s with
  | EmptyString => true
  | String _ _ => single_spaced_from true s
  end.

(** The text is its own [strip()]. *)
Definition trimmed (s : string) : Prop := Str.strip s = s.

(** ** More sample documents *)

(** A page with a job card that holds no hyperlink at all. *)
Definition linkless_page : node :=
  Tag "[document]" no_attrs
    [ Tag "div" (with_class ["job-card"])
        [ Tag "h2" no_attrs [NavigableString "Senior Analyst"];
          Tag "span" (with_class ["company"]) [NavigableString "Acme Corp"] ] ].

(** A card whose title is a heading that holds no link; the link is next to it. *)
Definition sibling_link_card : node :=
  Tag "li" (with_class ["listing"])
    [ Tag "h3" no_attrs [NavigableString "Plant Manager"];
      Tag "a" (with_href "/view/77") [NavigableString "More"] ].

(** A card whose only heading and only hyperlink have short texts. *)
Definition untitled_card : node :=
  Tag "div" (with_class ["card"])
    [ Tag "h2" no_attrs [NavigableString "New"];
      Tag "a" (with_href "/j/5") [NavigableString "Go"] ].

(** Two rows with different identity keys. *)
Definition two_rows : list JobRecord :=
  [ {| Title := "Data Analyst"; Company := "Acme"; Location := "Pune";
       Experience := "2 years"; Link := "https://www.iimjobs.com/j/1" |};
    {| Title := "Plant Manager"; Company := "Globex"; Location := "";
       Experience := ""; Link := "https://www.iimjobs.com/j/2" |} ].

(** The class hints of [choose_company]. *)
Definition COMPANY_HINTS : list string := ["company"; "employer"; "org"; "firm"; "recruiter"].

(** * Properties *)

(** ** The model on the examples of the specification *)

Section Examples.

Example is_space_codes :
  List.filter (fun n => Str.is_space (ascii_of_nat n)) (seq 0 256)
  = [9; 10; 11; 12; 13; 28; 29; 30; 31; 32; 133; 160].
Proof. vm_compute. reflexivity. Qed.

Example is_word_codes :
  List.filter (fun n => Re.is_word (ascii_of_nat n)) (seq 0 256)
  = seq 48 10 ++ seq 65 26 ++ [95] ++ seq 97 26
    ++ [170; 178; 179; 181; 185; 186; 188; 189; 190]
    ++ seq 192 23 ++ seq 216 31 ++ seq 248 8.
Proof. vm_compute. reflexivity. Qed.

Example lower_char_codes :
  List.filter (fun n => negb (nat_of_ascii (Str.lower_char (ascii_of_nat n)) =? n)%nat) (seq 0 256)
  = seq 65 26 ++ seq 192 23 ++ seq 216 7
  /\ forallb (fun n => (nat_of_ascii (Str.lower_char (ascii_of_nat n)) =? n + 32)%nat)
              (seq 65 26 ++ seq 192 23 ++ seq 216 7) = true.
Proof. split; vm_compute; reflexivity. Qed.

Example accepts_i_codes :
  map (fun c => List.filter (fun n => accepts_i c (ascii_of_nat n)) (seq 0 256))
      (list_ascii_of_string "LocationCity")
  = [ [76; 108]; [79; 111]; [67; 99]; [65; 97]; [84; 116]; [73; 105]; [79; 111]; [78; 110]; [67; 99]; [73; 105]; [84; 116]; [89; 121] ].
Proof. vm_compute. reflexivity. Qed.

Example absolutize_site_relative : absolutize "/j/123" = "https://www.iimjobs.com/j/123".
Proof. reflexivity. Qed.

Example absolutize_protocol_relative :
  absolutize "//cdn.iimjobs.com/x" = "https://cdn.iimjobs.com/x".
Proof. reflexivity. Qed.

Example absolutize_bare_path : absolutize "j/123" = "https://www.iimjobs.com/j/123".
Proof. reflexivity. Qed.

Example location_from_class :
  choose_location
    ([], Tag "li" (with_class ["job"])
           [ Tag "span" (with_class ["job-location"]) [NavigableString "  Mumbai,   India  "] ])
  = Some "Mumbai, India".
Proof. reflexivity. Qed.

Example experience_range : experience_in_text "Exp: 3-5 years" = Some "3-5 years".
Proof. reflexivity. Qed.

Example experience_plus : experience_in_text "Experience 2+ Years in sales" = Some "2+ Years".
Proof. reflexivity. Qed.

Example location_with_separator :
  location_in_text "Location: Mumbai, India | Exp 3 years" = Some "Mumbai, India".
Proof. reflexivity. Qed.

Example location_leftmost_longest :
  location_in_text "Location: A Location: B" = Some "A Location: B".
Proof. reflexivity. Qed.

Example location_white_space_given_back :
  location_in_text "Location:   |x" = Some "".
Proof. reflexivity. Qed.

Example location_after_letter :
  location_in_text (String "233" "Location: Pune") = None
  /\ location_in_text "Relocation: Pune" = None
  /\ location_in_text "(Location: Pune" = Some "Pune".
Proof. repeat split. Qed.

Example location_no_break_space :
  location_in_text ("City" +:+ String "160" ("-" +:+ String "160" "Pune" +:+ String "160" ""))
  = Some "Pune".
Proof. reflexivity. Qed.

Example dedupe_accented_titles : dedupe_jobs cafe_rows = firstn 1 cafe_rows.
Proof. reflexivity. Qed.

Example shadowed_link_page_rows :
  extract_jobs shadowed_link_page
  = [ {| Title := "View"; Company := ""; Location := ""; Experience := "";
         Link := "https://www.iimjobs.com/J/123" |} ].
Proof. reflexivity. Qed.

Example sample_page_rows :
  extract_jobs sample_page
  = [ {| Title := "Senior Analyst"; Company := "Acme Corp"; Location := "Mumbai";
         Experience := "3-5 years"; Link := "https://www.iimjobs.com/j/123" |} ].
Proof. reflexivity. Qed.

Example links_page_rows :
  extract_jobs links_page
  = [ {| Title := "Plant Manager"; Company := ""; Location := ""; Experience := "";
         Link := "https://www.iimjobs.com/j/123" |};
      {| Title := ""; Company := ""; Location := ""; Experience := "";
         Link := "https://www.iimjobs.com/jobs/all" |} ].
Proof. reflexivity. Qed.

Example empty_page_rows : extract_jobs empty_page = [].
Proof. reflexivity. Qed.

End Examples.

(** ** Strings *)

Section StringFacts.

Lemma truthy_nonempty (s : string) : Str.truthy s = true <-> s <> "".
Proof. destruct s; simpl; split; intros H; try congruence; done. Qed.

Lemma truthy_len (s : string) : Str.truthy s = true <-> 0 < Str.len s.
Proof. destruct s; unfold Str.len; simpl; split; intros H; try lia; done. Qed.

End StringFacts.

(** ** The URL normalizer *)

Section Absolutize.

Lemma absolutize_absolute (url : string) :
  Str.startswith url "http://" || Str.startswith url "https://" = true ->
  absolutize url = url.
Proof.
  intros H. unfold absolutize.
  destruct (negb (Str.truthy url)); [reflexivity |].
  rewrite H. reflexivity.
Qed.

Lemma absolutize_cases (url : string) :
  absolutize url = url \/ Str.startswith (absolutize url) "https://" = true.
Proof.
  unfold absolutize.
  destruct (negb (Str.truthy url)); [by left |].
  destruct (Str.startswith url "http://" || Str.startswith url "https://"); [by left |].
  destruct (Str.startswith url "//") eqn:Hpr.
  - right. simpl. exact Hpr.
  - destruct (Str.startswith url "/"); right; reflexivity.
Qed.

Lemma absolutize_truthy (url : string) :
  Str.truthy url = true -> Str.truthy (absolutize url) = true.
Proof.
  intros H. destruct (absolutize_cases url) as [-> | Hs]; [exact H |].
  destruct (absolutize url); [discriminate Hs | reflexivity].
Qed.

End Absolutize.

(** C6.  The URL normalizer is idempotent: a URL that already starts with
    "http://" or "https://" is returned unchanged, and for every string,
    normalizing twice gives the same result as normalizing once. *)
Theorem absolutize_idempotent (url : string) :
  (Str.startswith url "http://" = true \/ Str.startswith url "https://" = true ->
   absolutize url = url)
  /\ absolutize (absolutize url) = absolutize url.
Proof.
  split.
  - intros H. apply absolutize_absolute.
    destruct H as [-> | ->]; [reflexivity | apply orb_true_r].
  - destruct (absolutize_cases url) as [Heq | Hs].
    + by rewrite !Heq.
    + apply absolutize_absolute. rewrite Hs. apply orb_true_r.
Qed.

Lemma absolutize_idempotent_witness :
  absolutize "https://www.iimjobs.com/j/123" = "https://www.iimjobs.com/j/123"
  /\ absolutize (absolutize "j/123") = absolutize "j/123".
Proof.
  split.
  - apply (proj1 (absolutize_idempotent "https://www.iimjobs.com/j/123")).
    right. reflexivity.
  - apply (proj2 (absolutize_idempotent "j/123")).
Defined.

(** ** Loops that skip what they have seen *)

Section SeenLoop.

Context {A K : Type} `{Countable K} (key : A -> K).

(** The shape shared by [uniq_step] and [dedupe_step]. *)
Let step (acc : list A * gset K) (x : A) : list A * gset K :=
  if decide (key x ∈ acc.2) then acc else (acc.1 ++ [x], acc.2 ∪ {[key x]}).

Lemma foldl_step_first_by (xs : list A) (acc : list A * gset K) (earlier : list K) :
  (forall k, k ∈ acc.2 <-> k ∈ earlier) ->
  (foldl step acc xs).1 = acc.1 ++ first_by key earlier xs.
Proof.
  revert acc earlier.
  induction xs as [|x xs IH]; intros acc earlier Hseen; simpl.
  - by rewrite app_nil_r.
  - unfold step at 2.
    destruct (decide (key x ∈ acc.2)) as [Hin | Hout].
    + rewrite decide_True by (by apply Hseen).
      apply IH. intros k. rewrite elem_of_app, <- Hseen, list_elem_of_singleton.
      split; [tauto | intros [Hk | ->]; assumption].
    + rewrite decide_False by (by rewrite <- Hseen).
      rewrite (IH _ (earlier ++ [key x])); simpl.
      * by rewrite <- app_assoc.
      * intros k. simpl.
        by rewrite elem_of_app, <- Hseen, list_elem_of_singleton, elem_of_union, elem_of_singleton.
Qed.

Lemma first_by_sublist (xs : list A) (earlier : list K) :
  sublist (first_by key earlier xs) xs.
Proof.
  revert earlier. induction xs as [|x xs IH]; intros earlier; simpl.
  - constructor.
  - destruct (decide (key x ∈ earlier)); [apply sublist_cons | apply sublist_skip]; apply IH.
Qed.

Lemma first_by_elem (xs : list A) (earlier : list K) (x : A) :
  x ∈ first_by key earlier xs -> x ∈ xs.
Proof. intros Hx. eapply sublist_subseteq; [apply first_by_sublist | exact Hx]. Qed.

Lemma first_by_fresh (xs : list A) (earlier : list K) :
  NoDup (key <$> first_by key earlier xs)
  /\ forall x, x ∈ first_by key earlier xs -> key x ∉ earlier.
Proof.
  revert earlier. induction xs as [|x xs IH]; intros earlier; simpl.
  - split; [constructor | intros x Hx; by apply elem_of_nil in Hx].
  - destruct (IH (earlier ++ [key x])) as [Hnd Hfresh].
    assert (Hrest : forall y, y ∈ first_by key (earlier ++ [key x]) xs ->
                              (key y ∉ earlier) /\ key y <> key x).
    { intros y Hy. specialize (Hfresh y Hy). rewrite elem_of_app in Hfresh.
      split; [tauto |]. intros Heq. apply Hfresh. right. rewrite Heq. by left. }
    destruct (decide (key x ∈ earlier)) as [Hin | Hout].
    + split; [exact Hnd | intros y Hy; by apply Hrest].
    + split.
      * rewrite fmap_cons. constructor; [| exact Hnd].
        intros Hin. apply list_elem_of_fmap in Hin as (y & Hky & Hy).
        destruct (Hrest y Hy) as [_ Hne]. congruence.
      * intros y Hy. apply elem_of_cons in Hy as [-> | Hy]; [exact Hout | by apply Hrest].
Qed.

Lemma first_by_distinct (xs : list A) (earlier : list K) :
  NoDup (key <$> xs) -> (forall x, x ∈ xs -> key x ∉ earlier) ->
  first_by key earlier xs = xs.
Proof.
  revert earlier. induction xs as [|x xs IH]; intros earlier Hnd Hfresh; simpl; [reflexivity |].
  rewrite fmap_cons in Hnd. apply NoDup_cons in Hnd as [Hx Hnd].
  rewrite decide_False by (apply Hfresh; by left).
  f_equal. apply IH; [exact Hnd |].
  intros y Hy. rewrite elem_of_app. intros [Hin | Hin].
  - revert Hin. apply Hfresh. by right.
  - apply list_elem_of_singleton in Hin. apply Hx. rewrite <- Hin.
    apply list_elem_of_fmap. by exists y.
Qed.

Lemma first_by_idempotent (xs : list A) :
  first_by key [] (first_by key [] xs) = first_by key [] xs.
Proof.
  destruct (first_by_fresh xs []) as [Hnd _].
  apply first_by_distinct; [exact Hnd |].
  intros x _ Hx. by apply elem_of_nil in Hx.
Qed.

(** Every key of the input that was not met before survives in the output. *)
Lemma first_by_covers (xs : list A) (earlier : list K) (x : A) :
  x ∈ xs -> key x ∉ earlier ->
  exists y, y ∈ first_by key earlier xs /\ key y = key x.
Proof.
  revert earlier. induction xs as [|z xs IH]; intros earlier Hx Hfresh.
  - by apply elem_of_nil in Hx.
  - simpl. destruct (decide (key z = key x)) as [Heq | Hne].
    + rewrite Heq. rewrite decide_False by exact Hfresh.
      exists z. split; [by left | exact Heq].
    + apply elem_of_cons in Hx as [-> | Hx]; [congruence |].
      destruct (IH (earlier ++ [key z]) Hx) as (y & Hy & Hky).
      { rewrite elem_of_app. intros [Hin | Hin]; [by apply Hfresh |].
        apply list_elem_of_singleton in Hin. congruence. }
      exists y. split; [| exact Hky].
      destruct (decide (key z ∈ earlier)); [exact Hy | by right].
Qed.

End SeenLoop.

(** ** The deduplicator *)

Section Dedupe.

Lemma dedupe_jobs_first_by (rows : list JobRecord) :
  dedupe_jobs rows = first_by row_key [] rows.
Proof.
  unfold dedupe_jobs.
  apply (foldl_step_first_by row_key rows ([], ∅) []).
  intros k. simpl. split; intros Hk; [by apply not_elem_of_empty in Hk | by apply elem_of_nil in Hk].
Qed.

Lemma row_key_identity (r : JobRecord) : row_key r = identity_key r.
Proof. reflexivity. Qed.

Lemma first_by_key_ext {A K : Type} `{EqDecision K} (key1 key2 : A -> K)
    (earlier : list K) (xs : list A) :
  (forall x, key1 x = key2 x) -> first_by key1 earlier xs = first_by key2 earlier xs.
Proof.
  intros Hkey. revert earlier. induction xs as [|x xs IH]; intros earlier; [reflexivity |].
  cbn [first_by]. by rewrite Hkey, !IH.
Qed.

Lemma dedupe_jobs_elem (rows : list JobRecord) (r : JobRecord) :
  r ∈ dedupe_jobs rows -> r ∈ rows.
Proof. rewrite dedupe_jobs_first_by. apply first_by_elem. Qed.

End Dedupe.

(** C4.  The Deduplicator returns the subsequence of its input that keeps,
    in the original order, the first row of each identity key, the key of a
    row being its lowercased, trimmed Title together with its lowercased,
    trimmed Link, and drops every later row with a key already met.  Of two
    rows, the second is dropped exactly when both parts of the key agree,
    whatever the Company, Location and Experience of the rows. *)
Theorem dedupe_jobs_keeps_first_occurrences (rows : list JobRecord) :
  dedupe_jobs rows = keep_first_occurrences rows
  /\ sublist (dedupe_jobs rows) rows
  /\ (forall r1 r2 : JobRecord,
        dedupe_jobs [r1; r2]
        = if decide (Str.strip (Str.lower (Title r1)) = Str.strip (Str.lower (Title r2))
                     /\ Str.strip (Str.lower (Link r1)) = Str.strip (Str.lower (Link r2)))
          then [r1] else [r1; r2]).
Proof.
  assert (Hkey : forall rs, dedupe_jobs rs = first_by identity_key [] rs).
  { intros rs. rewrite dedupe_jobs_first_by. apply first_by_key_ext, row_key_identity. }
  split; [apply Hkey |].
  split; [rewrite dedupe_jobs_first_by; apply first_by_sublist |].
  intros r1 r2. rewrite Hkey. cbn [first_by app].
  rewrite decide_False by (intros Hin; by apply elem_of_nil in Hin).
  destruct (decide (identity_key r2 ∈ [identity_key r1])) as [Hin | Hout];
    [rewrite decide_True | rewrite decide_False]; try reflexivity.
  - apply list_elem_of_singleton in Hin. unfold identity_key in Hin.
    injection Hin as Ht Hl. by split.
  - intros [Ht Hl]. apply Hout, list_elem_of_singleton. unfold identity_key. congruence.
Qed.

Lemma dedupe_jobs_keeps_first_occurrences_witness :
  dedupe_jobs cafe_rows
  = [ {| Title := "CAF" +:+ String "201" " Manager"; Company := "Acme"; Location := "Pune";
         Experience := "2 years"; Link := "https://www.iimjobs.com/j/1" |} ]
  /\ dedupe_jobs two_rows = two_rows.
Proof.
  split.
  - unfold cafe_rows.
    rewrite (proj2 (proj2 (dedupe_jobs_keeps_first_occurrences []))). reflexivity.
  - unfold two_rows.
    rewrite (proj2 (proj2 (dedupe_jobs_keeps_first_occurrences []))). reflexivity.
Defined.

(** C5.  The Deduplicator is idempotent: applied to its own output it
    returns that output unchanged. *)
Theorem dedupe_jobs_idempotent (rows : list JobRecord) :
  dedupe_jobs (dedupe_jobs rows) = dedupe_jobs rows.
Proof.
  rewrite !dedupe_jobs_first_by. apply first_by_idempotent.
Qed.

(** ** The rows of the pipeline *)

Section Rows.

Lemma or_empty_some (s : string) : or_empty (Some s) = s.
Proof. by destruct s. Qed.

(** A loop that appends at most one row per item collects the rows of the
    items in order. *)
Lemma foldl_append_omap {A B : Type} (f : A -> option B) (xs : list A) (acc : list B) :
  foldl (fun results x => match f x with Some r => results ++ [r] | None => results end) acc xs
  = acc ++ omap f xs.
Proof.
  revert acc. induction xs as [|x xs IH]; intros acc; simpl.
  - by rewrite app_nil_r.
  - rewrite IH. destruct (f x); simpl; [by rewrite <- app_assoc | reflexivity].
Qed.

Lemma fallback_rows_omap (soup : element) :
  fallback_rows soup = omap fallback_row (find_all_href "a" soup).
Proof. unfold fallback_rows. by rewrite foldl_append_omap. Qed.

Lemma container_rows_omap (soup : node) (containers : list element) :
  container_rows soup containers = omap (container_row soup) containers.
Proof. unfold container_rows. by rewrite foldl_append_omap. Qed.

Lemma stripped_href_anchor (a : element) : stripped_href a = anchor_href a.
Proof.
  unfold stripped_href, anchor_href. destruct (get_href a) as [h |]; [| reflexivity].
  by rewrite or_empty_some.
Qed.

Lemma fallback_row_qualifies (a : element) :
  fallback_row a = if anchor_qualifies a then Some (anchor_row a) else None.
Proof.
  unfold fallback_row, anchor_qualifies, anchor_row, is_site_href, SITE_DOMAIN.
  rewrite !stripped_href_anchor.
  destruct (Str.truthy (anchor_href a)); cbn [negb andb]; [| reflexivity].
  destruct (_ || _ || _); [| reflexivity].
  by rewrite or_empty_some.
Qed.

Lemma anchor_qualifies_truthy (a : element) :
  anchor_qualifies a = true -> Str.truthy (anchor_href a) = true.
Proof. unfold anchor_qualifies. intros H. by apply andb_true_iff in H as [H _]. Qed.

Lemma fallback_row_link (a : element) (r : JobRecord) :
  fallback_row a = Some r -> Str.truthy (Link r) = true.
Proof.
  rewrite fallback_row_qualifies.
  destruct (anchor_qualifies a) eqn:Hq; [| discriminate].
  intros [= <-]. simpl. by apply absolutize_truthy, anchor_qualifies_truthy.
Qed.

Lemma omap_fallback_row (xs : list element) :
  omap fallback_row xs = map anchor_row (List.filter anchor_qualifies xs).
Proof.
  induction xs as [|x xs IH]; simpl; [reflexivity |].
  rewrite fallback_row_qualifies.
  destruct (anchor_qualifies x); simpl; [f_equal |]; exact IH.
Qed.

Lemma filter_filter_narrow {A : Type} (q g h : A -> bool) (xs : list A) :
  (forall x, q x = true -> h x = true) ->
  List.filter q (List.filter (fun x => g x && h x) xs) = List.filter q (List.filter g xs).
Proof.
  intros Himp. induction xs as [|x xs IH]; simpl; [reflexivity |].
  destruct (g x); simpl; [| exact IH].
  destruct (q x) eqn:Hq.
  - rewrite (Himp x Hq). simpl. by rewrite Hq, IH.
  - destruct (h x); simpl; rewrite ?Hq; exact IH.
Qed.

Lemma anchor_qualifies_has_href (a : element) :
  anchor_qualifies a = true -> has_href a = true.
Proof.
  intros Hq. apply anchor_qualifies_truthy in Hq.
  unfold anchor_href in Hq. unfold has_href.
  destruct (get_href a); [reflexivity | discriminate Hq].
Qed.

End Rows.

(** ** The title extractor *)

Section Title.

Lemma title_from_heading_text (node : element) (hs : list string) (t : element) :
  title_from_heading node hs = Some t -> has_title_text t = true.
Proof.
  induction hs as [|h hs IH]; simpl; [discriminate |].
  destruct (find h node) as [hnode |]; [| exact IH].
  destruct (has_title_text hnode) eqn:Hlen; [| exact IH].
  by intros [= <-].
Qed.

Lemma choose_title_text (node t : element) :
  choose_title node = Some t -> has_title_text t = true.
Proof.
  unfold choose_title.
  destruct (title_from_job_anchor node) as [a |] eqn:H1.
  - intros [= <-]. apply find_some in H1 as [_ H1].
    by apply andb_true_iff in H1 as [_ H1].
  - destruct (title_from_heading node HEADINGS) as [hnode |] eqn:H2.
    + intros [= <-]. by apply title_from_heading_text in H2.
    + intros H3. by apply find_some in H3 as [_ H3].
Qed.

Lemma has_title_text_len (t : element) :
  has_title_text t = true <-> 5 <= Str.len (extract_visible_text t).
Proof. unfold has_title_text. apply Nat.leb_le. Qed.

Lemma container_row_title (soup : node) (c : element) (r : JobRecord) :
  container_row soup c = Some r ->
  exists t, choose_title c = Some t /\ Title r = extract_visible_text t.
Proof.
  unfold container_row.
  destruct (choose_title c) as [t |]; [| discriminate].
  destruct (both_empty _ _); [discriminate |].
  intros [= <-]. by exists t.
Qed.

Lemma container_rows_title (soup : node) (containers : list element) (r : JobRecord) :
  r ∈ dedupe_jobs (container_rows soup containers) -> 5 <= Str.len (Title r).
Proof.
  intros Hr. apply dedupe_jobs_elem in Hr.
  rewrite container_rows_omap in Hr.
  apply list_elem_of_omap in Hr as (c & _ & Hc).
  apply container_row_title in Hc as (t & Ht & ->).
  by apply has_title_text_len, choose_title_text with c.
Qed.

End Title.

(** C1.  Every row that the pipeline produces, on the container path or on
    the fallback path, after deduplication, has a non-empty Title or a
    non-empty Link: no row has both equal to the empty string. *)
Theorem extract_jobs_title_or_link (soup : node) (r : JobRecord) :
  r ∈ extract_jobs soup -> Title r <> "" \/ Link r <> "".
Proof.
  unfold extract_jobs.
  destruct (find_job_containers ([], soup)) as [|c cs] eqn:Hc; intros Hr.
  - right. apply dedupe_jobs_elem in Hr.
    rewrite fallback_rows_omap in Hr.
    apply list_elem_of_omap in Hr as (a & _ & Ha).
    by apply truthy_nonempty, fallback_row_link with a.
  - left. apply container_rows_title in Hr.
    apply truthy_nonempty, truthy_len. lia.
Qed.

Lemma extract_jobs_title_or_link_witness :
  Title {| Title := ""; Company := ""; Location := ""; Experience := "";
           Link := "https://www.iimjobs.com/jobs/all" |} <> ""
  \/ Link {| Title := ""; Company := ""; Location := ""; Experience := "";
             Link := "https://www.iimjobs.com/jobs/all" |} <> "".
Proof.
  apply (extract_jobs_title_or_link links_page).
  vm_compute. right. left.
Defined.

(** C10.  Whenever the Title Extractor returns an element, by any of its
    three steps, the normalized visible text of that element has at least
    five characters; so the test that discards a row with empty Title and
    empty Link fails for that container, which yields a row whose Title is
    that text, and every row of the container path has a Title of at least
    five characters. *)
Theorem choose_title_at_least_five (soup : node) (c t : element) :
  choose_title c = Some t ->
  5 <= Str.len (extract_visible_text t)
  /\ both_empty (extract_visible_text t) (or_empty (choose_link soup t)) = false
  /\ (exists r, container_row soup c = Some r /\ Title r = extract_visible_text t)
  /\ (find_job_containers ([], soup) <> [] ->
      forall r, r ∈ extract_jobs soup -> 5 <= Str.len (Title r)).
Proof.
  intros Ht.
  assert (Hlen : 5 <= Str.len (extract_visible_text t))
    by (by apply has_title_text_len, choose_title_text with c).
  assert (Hkeep : both_empty (extract_visible_text t) (or_empty (choose_link soup t)) = false).
  { unfold both_empty. replace (Str.truthy (extract_visible_text t)) with true; [reflexivity |].
    symmetry. apply truthy_len. lia. }
  split; [exact Hlen |]. split; [exact Hkeep |]. split.
  - unfold container_row. rewrite Ht, Hkeep. eexists. split; reflexivity.
  - intros Hne r. unfold extract_jobs.
    destruct (find_job_containers ([], soup)) as [|c' cs]; [done |].
    apply container_rows_title.
Qed.

Lemma choose_title_at_least_five_witness :
  5 <= Str.len "Senior Analyst"
  /\ 5 <= Str.len (Title {| Title := "Senior Analyst"; Company := "Acme Corp";
                            Location := "Mumbai"; Experience := "3-5 years";
                            Link := "https://www.iimjobs.com/j/123" |}).
Proof.
  destruct (choose_title_at_least_five sample_page ([0], sample_card)
              ([0; 0; 0], Tag "a" (with_href "/j/123") [NavigableString "Senior  Analyst"])
              eq_refl) as (Hlen & _ & _ & Hrows).
  split; [exact Hlen |].
  apply Hrows; [vm_compute; discriminate | vm_compute; left].
Defined.

(** C7, as amended.  When the Container Locator finds nothing, the pipeline
    scans the hyperlinks of the document in document order and, for each
    one whose [href], without the white space around it, is non-empty and,
    lowercased, contains the site domain, or starts with "/j/", or contains
    "/job", produces a row whose Title is the normalized visible text of the
    hyperlink (possibly empty), whose Company, Location and Experience are
    empty and whose Link is the absolutized [href]; the rows then go
    through the Deduplicator.  So a hyperlink to "/j/123" gives a scanned row
    with Link "https://www.iimjobs.com/j/123"; the output always holds a row
    with the identity key of that row, and it holds that very row when no
    other scanned row has its identity key. *)
Theorem fallback_scanner_rows (soup : node) :
  find_job_containers ([], soup) = [] ->
  extract_jobs soup = dedupe_jobs (scanned_rows soup)
  /\ (forall a, a ∈ find_all "a" ([], soup) -> get_href a = Some "/j/123" ->
      anchor_row a ∈ scanned_rows soup
      /\ anchor_row a
         = {| Title := extract_visible_text a; Company := ""; Location := "";
              Experience := ""; Link := "https://www.iimjobs.com/j/123" |}
      /\ (exists r, r ∈ extract_jobs soup /\ identity_key r = identity_key (anchor_row a))
      /\ ((forall r, r ∈ scanned_rows soup ->
                     identity_key r = identity_key (anchor_row a) -> r = anchor_row a) ->
          anchor_row a ∈ extract_jobs soup)).
Proof.
  intros Hnone.
  assert (Hrows : extract_jobs soup = dedupe_jobs (scanned_rows soup)).
  { unfold extract_jobs, scanned_rows. rewrite Hnone, fallback_rows_omap, omap_fallback_row.
    unfold find_all_href, find_all. do 2 f_equal.
    apply filter_filter_narrow, anchor_qualifies_has_href. }
  split; [exact Hrows |].
  intros a Ha Hhref.
  assert (Hq : anchor_qualifies a = true)
    by (unfold anchor_qualifies, anchor_href; rewrite Hhref; reflexivity).
  assert (Hin : anchor_row a ∈ scanned_rows soup).
  { apply list_elem_of_fmap. exists a. split; [reflexivity |].
    apply list_elem_of_In, filter_In. split; [by apply list_elem_of_In | exact Hq]. }
  assert (Hkey : exists r, r ∈ extract_jobs soup
                           /\ identity_key r = identity_key (anchor_row a)).
  { rewrite Hrows, dedupe_jobs_first_by.
    destruct (first_by_covers row_key (scanned_rows soup) [] (anchor_row a) Hin)
      as (r & Hr & Hk); [intros Hk; by apply elem_of_nil in Hk |].
    exists r. split; [exact Hr | by rewrite <- !row_key_identity]. }
  split; [exact Hin |]. split; [| split; [exact Hkey |]].
  - unfold anchor_row, anchor_href. rewrite Hhref. reflexivity.
  - intros Honly. destruct Hkey as (r & Hr & Hk).
    rewrite <- (Honly r); [exact Hr | | exact Hk].
    rewrite Hrows in Hr. by apply dedupe_jobs_elem.
Qed.

Lemma fallback_scanner_rows_witness :
  extract_jobs links_page = dedupe_jobs (scanned_rows links_page)
  /\ anchor_row ([0; 0], Tag "a" (with_href "/j/123") [NavigableString "Plant Manager"])
     = {| Title := "Plant Manager"; Company := ""; Location := ""; Experience := "";
          Link := "https://www.iimjobs.com/j/123" |}
  /\ anchor_row ([0; 0], Tag "a" (with_href "/j/123") [NavigableString "Plant Manager"])
     ∈ extract_jobs links_page.
Proof.
  destruct (fallback_scanner_rows links_page eq_refl) as [Hrows Hlink].
  split; [exact Hrows |].
  destruct (Hlink ([0; 0], Tag "a" (with_href "/j/123") [NavigableString "Plant Manager"]))
    as (_ & Hrow & _ & Hout); [vm_compute; left | reflexivity |].
  split; [exact Hrow |]. apply Hout.
  intros r Hr Hk. vm_compute in Hr.
  apply elem_of_cons in Hr as [-> | Hr]; [reflexivity |].
  apply list_elem_of_singleton in Hr as ->. vm_compute in Hk. discriminate Hk.
Defined.

(** C7, as stated, fails: [shadowed_link_page] has no container and a
    hyperlink to "/j/123" that passes the test of the scan, yet no row of the
    output has the Link "https://www.iimjobs.com/j/123": the Deduplicator
    drops its row, whose identity key is that of the row before it. *)
Lemma fallback_scanner_shadowed_counterexample :
  find_job_containers ([], shadowed_link_page) = []
  /\ ([1], Tag "a" (with_href "/j/123") [NavigableString "view"])
     ∈ find_all "a" ([], shadowed_link_page)
  /\ anchor_qualifies ([1], Tag "a" (with_href "/j/123") [NavigableString "view"]) = true
  /\ extract_jobs shadowed_link_page
     = [ {| Title := "View"; Company := ""; Location := ""; Experience := "";
            Link := "https://www.iimjobs.com/J/123" |} ]
  /\ ~ (exists r, r ∈ extract_jobs shadowed_link_page
                  /\ Link r = "https://www.iimjobs.com/j/123").
Proof.
  split; [reflexivity |]. split; [vm_compute; right; left |].
  split; [reflexivity |]. split; [reflexivity |].
  intros (r & Hr & Hl). vm_compute in Hr.
  apply list_elem_of_singleton in Hr as ->. discriminate Hl.
Qed.

(** ** The entry point *)

(** C9.  When the input path does not exist, the entry point writes a
    diagnostic line to the error stream and returns 2, and the extraction is
    not run (nothing is read, nothing is written to the standard output).
    When the input exists and the workbook can be written, it returns 0
    after writing to the standard output a summary line with the number of
    rows, also when no row survives. *)
Theorem main_exit_status (w : world) :
  (input_page w = None ->
   run_main w = (Some 2, [ToStderr "Input HTML not found: /workspace/Page_49_htmlr1.htm"]))
  /\ (forall soup, input_page w = Some soup -> output_writable w = true ->
      run_main w
      = (Some 0,
         ReadPage INPUT_PATH
         :: match extract_jobs soup with
            | [] => [ToStdout "No jobs found. Exporting an empty sheet with headers."]
            | _ :: _ => []
            end
         ++ [ WroteSheet OUTPUT_XLSX "Jobs" COLUMNS (extract_jobs soup);
              ToStdout ("Wrote " +:+ Str.of_nat (length (extract_jobs soup))
                        +:+ " rows to /workspace/jobs_page49.xlsx") ])).
Proof.
  split.
  - intros Hmissing.
    unfold run_main, main, mbind, IO_bind, input_exists. rewrite Hmissing. reflexivity.
  - intros soup Hpage Hwritable.
    unfold run_main, main, extract_jobs_from, read_page, write_sheet,
      mbind, IO_bind, input_exists, mret, IO_ret, print_out.
    rewrite Hpage. simpl. rewrite Hpage.
    destruct (extract_jobs soup) as [|r rows]; simpl; rewrite Hwritable; reflexivity.
Qed.

Lemma main_exit_status_witness :
  run_main {| input_page := None; output_writable := true |}
  = (Some 2, [ToStderr "Input HTML not found: /workspace/Page_49_htmlr1.htm"])
  /\ run_main {| input_page := Some empty_page; output_writable := true |}
     = (Some 0,
        [ ReadPage "/workspace/Page_49_htmlr1.htm";
          ToStdout "No jobs found. Exporting an empty sheet with headers.";
          WroteSheet "/workspace/jobs_page49.xlsx" "Jobs"
            ["Title"; "Company"; "Location"; "Experience"; "Link"] [];
          ToStdout "Wrote 0 rows to /workspace/jobs_page49.xlsx" ]).
Proof.
  split.
  - apply (proj1 (main_exit_status {| input_page := None; output_writable := true |})).
    reflexivity.
  - apply (proj2 (main_exit_status {| input_page := Some empty_page; output_writable := true |})
             empty_page); reflexivity.
Defined.

(** ** Elements and their paths *)

Section Tree.

Lemma node_ind_forall (P : node -> Prop) :
  (forall s, P (NavigableString s)) ->
  (forall nm a cs, Forall P cs -> P (Tag nm a cs)) ->
  forall n, P n.
Proof.
  intros Hs Ht. fix IH 1. intros [s | nm a cs]; [apply Hs | apply Ht].
  induction cs as [|c cs IHcs]; constructor; [apply IH | exact IHcs].
Qed.

Lemma forest_cons (p : list nat) (i : nat) (c : node) (cs : list node) :
  forest subtree p i (c :: cs) = subtree (p ++ [i]) c ++ forest subtree p (S i) cs.
Proof. reflexivity. Qed.

Lemma subtree_unfold (p : list nat) (n : node) :
  subtree p n = (p, n) :: descendants (p, n).
Proof. by destruct n. Qed.

(** Every path of a subtree extends the path of its root. *)
Lemma subtree_extends (n : node) :
  forall p e, e ∈ subtree p n -> exists rel, e.1 = p ++ rel.
Proof.
  induction n as [s | nm a cs IH] using node_ind_forall; intros p e He; simpl in He.
  - apply list_elem_of_singleton in He as ->. exists []. by rewrite app_nil_r.
  - apply elem_of_cons in He as [-> | He]; [exists []; by rewrite app_nil_r |].
    generalize dependent 0. induction IH as [|c cs Hc _ IHcs]; intros i He.
    + by apply elem_of_nil in He.
    + rewrite forest_cons, elem_of_app in He. destruct He as [He | He].
      * destruct (Hc _ _ He) as [rel ->]. exists (i :: rel). by rewrite <- app_assoc.
      * by apply IHcs with (S i).
Qed.

(** The paths of a forest go through a child index not below the first. *)
Lemma forest_extends (p : list nat) (cs : list node) :
  forall i e, e ∈ forest subtree p i cs -> exists j rel, i <= j /\ e.1 = p ++ j :: rel.
Proof.
  induction cs as [|c cs IH]; intros i e He.
  - by apply elem_of_nil in He.
  - rewrite forest_cons, elem_of_app in He. destruct He as [He | He].
    + destruct (subtree_extends _ _ _ He) as [rel ->].
      exists i, rel. split; [lia | by rewrite <- app_assoc].
    + destruct (IH _ _ He) as (j & rel & Hj & ->). exists j, rel. split; [lia | reflexivity].
Qed.

(** No two elements of a subtree have the same path. *)
Lemma subtree_NoDup (n : node) : forall p, NoDup ((subtree p n).*1).
Proof.
  induction n as [s | nm a cs IH] using node_ind_forall; intros p; simpl.
  - apply NoDup_singleton.
  - constructor.
    + intros Hin. apply list_elem_of_fmap in Hin as (e & Hp & He).
      destruct (forest_extends _ _ _ _ He) as (j & rel & _ & Hrel).
      rewrite <- Hp in Hrel. apply (f_equal length) in Hrel.
      rewrite length_app in Hrel. simpl in Hrel. lia.
    + generalize 0. induction IH as [|c cs Hc _ IHcs]; intros i; [constructor |].
      rewrite forest_cons, fmap_app. apply NoDup_app. split; [apply Hc |]. split; [| apply IHcs].
      intros q Hq1 Hq2.
      apply list_elem_of_fmap in Hq1 as (e1 & -> & He1).
      apply list_elem_of_fmap in Hq2 as (e2 & Heq & He2).
      destruct (subtree_extends _ _ _ He1) as [rel1 H1].
      destruct (forest_extends _ _ _ _ He2) as (j & rel2 & Hj & H2).
      rewrite Heq, H2, <- app_assoc in H1. apply app_inv_head in H1.
      simpl in H1. injection H1 as -> _. lia.
Qed.

Lemma descendants_NoDup (e : element) : NoDup ((descendants e).*1).
Proof.
  pose proof (subtree_NoDup e.2 e.1) as Hnd.
  rewrite subtree_unfold, fmap_cons in Hnd. apply NoDup_cons in Hnd as [_ Hnd].
  by destruct e.
Qed.

(** The path of an element leads to it. *)
Lemma subtree_node_at (n : node) :
  forall p e, e ∈ subtree p n -> exists rel, e.1 = p ++ rel /\ node_at n rel = Some e.2.
Proof.
  induction n as [s | nm a cs IH] using node_ind_forall; intros p e He; simpl in He.
  - apply list_elem_of_singleton in He as ->. exists []. by rewrite app_nil_r.
  - apply elem_of_cons in He as [-> | He]; [exists []; by rewrite app_nil_r |].
    assert (Hforest : forall i, e ∈ forest subtree p i cs ->
              exists k c rel, cs !! k = Some c /\ e.1 = p ++ (i + k) :: rel
                              /\ node_at c rel = Some e.2).
    { clear He. induction IH as [|c cs Hc _ IHcs]; intros i He.
      - by apply elem_of_nil in He.
      - rewrite forest_cons, elem_of_app in He. destruct He as [He | He].
        + destruct (Hc _ _ He) as (rel & Hp & Hat). exists 0, c, rel.
          split; [reflexivity |]. split; [| exact Hat].
          by rewrite Hp, <- app_assoc, Nat.add_0_r.
        + destruct (IHcs _ He) as (k & c' & rel & Hk & Hp & Hat).
          exists (S k), c', rel. split; [exact Hk |]. split; [| exact Hat].
          rewrite Hp. do 2 f_equal. lia. }
    destruct (Hforest 0 He) as (k & c & rel & Hk & Hp & Hat).
    exists (k :: rel). split; [exact Hp |]. simpl. by rewrite Hk.
Qed.

Lemma descendants_node_at (soup : node) (e : element) :
  e ∈ descendants ([], soup) -> node_at soup e.1 = Some e.2.
Proof.
  intros He. destruct (subtree_node_at soup [] e) as (rel & Hp & Hat).
  - rewrite subtree_unfold. by right.
  - simpl in Hp. by rewrite Hp.
Qed.

(** Elements of a list without repeated paths are equal when their paths are. *)
Lemma same_path_same_element (l : list element) (e1 e2 : element) :
  NoDup (l.*1) -> e1 ∈ l -> e2 ∈ l -> e1.1 = e2.1 -> e1 = e2.
Proof.
  induction l as [|x l IH]; intros Hnd H1 H2 Heq; [by apply elem_of_nil in H1 |].
  rewrite fmap_cons in Hnd. apply NoDup_cons in Hnd as [Hx Hnd].
  apply elem_of_cons in H1 as [-> | H1]; apply elem_of_cons in H2 as [-> | H2].
  - reflexivity.
  - exfalso. apply Hx. rewrite Heq. apply list_elem_of_fmap. by exists e2.
  - exfalso. apply Hx. rewrite <- Heq. apply list_elem_of_fmap. by exists e1.
  - by apply IH.
Qed.

End Tree.

(** ** Class hints *)

Section ClassHints.

Lemma no_space_cons (c : ascii) (s : string) :
  Str.contains " " (String c s) = false ->
  Ascii.eqb c " " = false /\ Str.contains " " s = false.
Proof.
  cbn [Str.contains Str.startswith]. rewrite andb_true_r.
  intros H. apply orb_false_iff in H as [H1 H2].
  split; [by rewrite Ascii.eqb_sym | exact H2].
Qed.

(** A pattern without a space matches at the start of [x ++ " " ++ b] only
    inside [x]. *)
Lemma startswith_across_space (x b sub : string) :
  Str.contains " " sub = false ->
  Str.startswith (x +:+ String " " b) sub = Str.startswith x sub.
Proof.
  revert sub. induction x as [|d x IH]; intros [|c sub] Hsub; simpl; try reflexivity.
  - apply no_space_cons in Hsub as [-> _]. reflexivity.
  - apply no_space_cons in Hsub as [_ Hsub]. by rewrite IH.
Qed.

Lemma plain_hint_inv (sub : string) :
  plain_hint sub = true -> Str.truthy sub = true /\ Str.contains " " sub = false.
Proof.
  unfold plain_hint. intros H. apply andb_true_iff in H as [H1 H2].
  split; [exact H1 | by apply negb_true_iff].
Qed.

Lemma contains_across_space (a b sub : string) :
  plain_hint sub = true ->
  Str.contains sub (a +:+ String " " b) = Str.contains sub a || Str.contains sub b.
Proof.
  intros Hplain. destruct (plain_hint_inv _ Hplain) as [Hne Hsp].
  induction a as [|d a IH].
  - destruct sub as [|c sub]; [discriminate Hne |].
    apply no_space_cons in Hsp as [Hc _]. simpl. by rewrite Hc.
  - change (String d a +:+ String " " b) with (String d (a +:+ String " " b)).
    cbn [Str.contains].
    change (String d (a +:+ String " " b)) with (String d a +:+ String " " b).
    rewrite startswith_across_space by exact Hsp.
    rewrite IH. by rewrite orb_assoc.
Qed.

Lemma contains_join (sub : string) (tokens : list string) :
  plain_hint sub = true ->
  Str.contains sub (Str.join " " tokens) = existsb (Str.contains sub) tokens.
Proof.
  intros Hplain. induction tokens as [|t tokens IH].
  - destruct (plain_hint_inv _ Hplain) as [Hne _].
    destruct sub; [discriminate Hne | reflexivity].
  - destruct tokens as [|t' tokens].
    + simpl. by rewrite orb_false_r.
    + change (Str.join " " (t :: t' :: tokens))
        with (t +:+ String " " (Str.join " " (t' :: tokens))).
      rewrite contains_across_space by exact Hplain.
      by rewrite IH.
Qed.

Lemma lower_append (a b : string) : Str.lower (a +:+ b) = Str.lower a +:+ Str.lower b.
Proof. induction a as [|c a IH]; simpl; [reflexivity | by rewrite IH]. Qed.

Lemma lower_join (tokens : list string) :
  Str.lower (Str.join " " tokens) = Str.join " " (map Str.lower tokens).
Proof.
  induction tokens as [|t tokens IH]; [reflexivity |].
  destruct tokens as [|t' tokens]; [reflexivity |].
  change (Str.join " " (t :: t' :: tokens))
    with (t +:+ String " " (Str.join " " (t' :: tokens))).
  rewrite lower_append. cbn [Str.lower]. rewrite IH. reflexivity.
Qed.

(** The test on the joined class string is a test on the tokens. *)
Lemma has_class_like_iff (e : element) (hints : list string) :
  forallb plain_hint hints = true ->
  has_class_like e hints = true <->
  exists token hint, In token (class_tokens e) /\ In hint hints
                     /\ Str.contains hint (Str.lower token) = true.
Proof.
  intros Hplain. unfold has_class_like. fold (class_tokens e).
  rewrite lower_join, existsb_exists. split.
  - intros (hint & Hin & Hc).
    rewrite contains_join in Hc
      by (rewrite forallb_forall in Hplain; by apply Hplain).
    apply existsb_exists in Hc as (lt & Hlt & Hc).
    apply in_map_iff in Hlt as (token & <- & Htok).
    by exists token, hint.
  - intros (token & hint & Htok & Hin & Hc).
    exists hint. split; [exact Hin |].
    rewrite contains_join by (rewrite forallb_forall in Hplain; by apply Hplain).
    apply existsb_exists. exists (Str.lower token). split; [| exact Hc].
    apply in_map_iff. by exists token.
Qed.

Lemma token_has_hint_iff (tokens hints : list string) :
  existsb (token_has_hint hints) tokens = true <->
  exists token hint, In token tokens /\ In hint hints
                     /\ Str.contains hint (Str.lower token) = true.
Proof.
  rewrite existsb_exists. unfold token_has_hint. split.
  - intros (token & Htok & Hh). apply existsb_exists in Hh as (hint & Hin & Hc).
    by exists token, hint.
  - intros (token & hint & Htok & Hin & Hc). exists token. split; [exact Htok |].
    apply existsb_exists. by exists hint.
Qed.

Lemma has_class_like_tokens (e : element) (hints : list string) :
  forallb plain_hint hints = true ->
  has_class_like e hints = existsb (token_has_hint hints) (class_tokens e).
Proof.
  intros Hplain. apply eq_true_iff_eq.
  by rewrite has_class_like_iff, token_has_hint_iff.
Qed.

End ClassHints.

(** ** The container locator *)

Section Locator.

Lemma head_filter_existsb {A : Type} (f : A -> bool) (l : list A) :
  is_Some_b (head (List.filter f l)) = existsb f l.
Proof.
  induction l as [|x l IH]; simpl; [reflexivity |].
  destruct (f x); [reflexivity | exact IH].
Qed.

Lemma filter_filter_and {A : Type} (f g : A -> bool) (l : list A) :
  List.filter f (List.filter g l) = List.filter (fun x => g x && f x) l.
Proof.
  induction l as [|x l IH]; simpl; [reflexivity |].
  destruct (g x); simpl; [destruct (f x) |]; by rewrite IH.
Qed.

Lemma CONTAINER_HINTS_plain : forallb plain_hint CONTAINER_HINTS = true.
Proof. reflexivity. Qed.

Lemma is_candidate_qualifies (e : element) : is_candidate e = qualifies e.
Proof.
  unfold is_candidate, qualifies, has_hyperlink, find, find_all.
  by rewrite has_class_like_tokens, head_filter_existsb by apply CONTAINER_HINTS_plain.
Qed.

Lemma candidates_qualifying (soup : element) : candidates soup = qualifying_elements soup.
Proof.
  unfold candidates, qualifying_elements, find_all.
  induction CONTAINER_TAGS as [|t tags IH]; simpl; [reflexivity |].
  rewrite IH, filter_filter_and. f_equal.
  apply filter_ext. intros e. by rewrite is_candidate_qualifies.
Qed.

Lemma filter_paths_NoDup (f : element -> bool) (l : list element) :
  NoDup (l.*1) -> NoDup ((List.filter f l).*1).
Proof.
  induction l as [|x l IH]; simpl; [done |].
  rewrite NoDup_cons. intros [Hx Hnd].
  destruct (f x); [| by apply IH].
  rewrite fmap_cons. apply NoDup_cons. split; [| by apply IH].
  intros Hin. apply Hx.
  apply list_elem_of_fmap in Hin as (y & Hy1 & Hy2).
  apply list_elem_of_fmap. exists y. split; [exact Hy1 |].
  apply list_elem_of_In. apply list_elem_of_In, filter_In in Hy2. tauto.
Qed.

Lemma is_tag_name (t1 t2 : string) (e : element) :
  is_tag t1 e = true -> is_tag t2 e = true -> t1 = t2.
Proof.
  unfold is_tag. destruct e.2 as [s | nm a cs]; [discriminate |].
  rewrite !String.eqb_eq. congruence.
Qed.

(** Scans for different tag names meet different elements. *)
Lemma tag_scans_NoDup (q : element -> bool) (l : list element) (tags : list string) :
  NoDup (l.*1) -> NoDup tags ->
  NoDup ((flat_map (fun t => List.filter (fun e => is_tag t e && q e) l) tags).*1).
Proof.
  intros Hl. induction tags as [|t tags IH]; intros Htags; simpl; [constructor |].
  apply NoDup_cons in Htags as [Ht Htags].
  rewrite fmap_app. apply NoDup_app.
  split; [by apply filter_paths_NoDup |]. split; [| by apply IH].
  intros x Hx1 Hx2.
  apply list_elem_of_fmap in Hx1 as (e1 & -> & He1).
  apply list_elem_of_fmap in Hx2 as (e2 & Heq & He2).
  apply list_elem_of_In, filter_In in He1 as [He1 Hq1].
  apply list_elem_of_In, in_flat_map in He2 as (t' & Ht' & He2).
  apply filter_In in He2 as [He2 Hq2].
  assert (e1 = e2) as <-
    by (apply (same_path_same_element l); [done | by apply list_elem_of_In ..| done]).
  apply andb_true_iff in Hq1 as [Hq1 _]. apply andb_true_iff in Hq2 as [Hq2 _].
  apply Ht. rewrite (is_tag_name _ _ _ Hq1 Hq2). by apply list_elem_of_In.
Qed.

Lemma CONTAINER_TAGS_NoDup : NoDup CONTAINER_TAGS.
Proof. apply (bool_decide_unpack (NoDup CONTAINER_TAGS)). by vm_compute. Qed.

Lemma qualifying_elements_NoDup (soup : element) : NoDup ((qualifying_elements soup).*1).
Proof.
  apply tag_scans_NoDup; [apply descendants_NoDup | apply CONTAINER_TAGS_NoDup].
Qed.

Lemma find_job_containers_candidates (soup : element) :
  find_job_containers soup = first_by fst [] (candidates soup).
Proof.
  unfold find_job_containers.
  apply (foldl_step_first_by fst (candidates soup) ([], ∅) []).
  intros k. simpl. split; intros Hk; [by apply not_elem_of_empty in Hk | by apply elem_of_nil in Hk].
Qed.

End Locator.

(** C8.  The Container Locator returns exactly the elements of the document
    whose tag is article, li, div or section, one of whose class tokens
    contains, case-insensitively, one of the hints job, listing, result,
    card, opening, vacancy, position, and which contain a hyperlink; each
    such element appears once (no two results have the same identity), in
    the order in which the scans meet them: tag name after tag name, each
    in document order. *)
Theorem find_job_containers_spec (soup : element) :
  find_job_containers soup = qualifying_elements soup
  /\ NoDup ((find_job_containers soup).*1)
  /\ (forall e, e ∈ find_job_containers soup <->
        e ∈ descendants soup
        /\ (exists tag, tag ∈ CONTAINER_TAGS /\ is_tag tag e = true)
        /\ (exists token hint, token ∈ class_tokens e /\ hint ∈ CONTAINER_HINTS
                               /\ Str.contains hint (Str.lower token) = true)
        /\ (exists a, a ∈ descendants e /\ is_tag "a" a = true)).
Proof.
  assert (Heq : find_job_containers soup = qualifying_elements soup).
  { rewrite find_job_containers_candidates, candidates_qualifying.
    apply first_by_distinct; [apply qualifying_elements_NoDup |].
    intros x _ Hx. by apply elem_of_nil in Hx. }
  split; [exact Heq |]. split; [rewrite Heq; apply qualifying_elements_NoDup |].
  intros e. rewrite Heq. unfold qualifying_elements.
  rewrite list_elem_of_In, in_flat_map. split.
  - intros (tag & Htag & He). apply filter_In in He as [He Hq].
    apply andb_true_iff in Hq as [Hq1 Hq2]. unfold qualifies in Hq2.
    apply andb_true_iff in Hq2 as [Hq2 Hq3].
    split; [by apply list_elem_of_In |]. split; [exists tag; by rewrite list_elem_of_In |].
    split.
    + apply token_has_hint_iff in Hq2 as (token & hint & H1 & H2 & H3).
      exists token, hint. by rewrite !list_elem_of_In.
    + apply existsb_exists in Hq3 as (a & Ha1 & Ha2). exists a. by rewrite list_elem_of_In.
  - intros (He & (tag & Htag & Ht) & (token & hint & H1 & H2 & H3) & (a & Ha1 & Ha2)).
    exists tag. split; [by apply list_elem_of_In |].
    apply filter_In. split; [by apply list_elem_of_In |].
    rewrite Ht. cbn [andb]. unfold qualifies. apply andb_true_iff. split.
    + apply token_has_hint_iff. exists token, hint. by rewrite <- !list_elem_of_In.
    + apply existsb_exists. exists a. by rewrite <- list_elem_of_In.
Qed.

Lemma find_job_containers_spec_witness :
  find_job_containers ([], sample_page) = [([0], sample_card)]
  /\ ([0], sample_card) ∈ descendants ([], sample_page).
Proof.
  destruct (find_job_containers_spec ([], sample_page)) as (Heq & _ & Hiff).
  split; [rewrite Heq; reflexivity |].
  apply (proj1 (Hiff ([0], sample_card))). rewrite Heq. vm_compute. left.
Defined.

(** ** The heading step of the title extractor *)

Section Headings.

Variable node : element.

Lemma has_title_text_short (t : element) :
  has_title_text t = false <-> Str.len (extract_visible_text t) < 5.
Proof. unfold has_title_text. rewrite Nat.leb_gt. reflexivity. Qed.

(** The loop returns the first heading of the first level whose first
    heading has enough text. *)
Lemma title_from_heading_first (hs : list string) :
  forall i h t,
    hs !! i = Some h -> find h node = Some t -> has_title_text t = true ->
    (forall j h' t', j < i -> hs !! j = Some h' -> find h' node = Some t' ->
                     has_title_text t' = false) ->
    title_from_heading node hs = Some t.
Proof.
  induction hs as [|h0 hs IH]; intros i h t Hi Hfind Hlong Hshort; [done |].
  destruct i as [|i]; simpl in *.
  - injection Hi as ->. by rewrite Hfind, Hlong.
  - assert (Hrest : title_from_heading node hs = Some t).
    { apply (IH i h t Hi Hfind Hlong). intros j h' t' Hj. apply (Hshort (S j)). lia. }
    destruct (find h0 node) as [t0 |] eqn:H0; [| exact Hrest].
    rewrite (Hshort 0 h0 t0); [exact Hrest | lia | reflexivity | exact H0].
Qed.

Lemma title_from_heading_none (hs : list string) :
  (forall h t, h ∈ hs -> find h node = Some t -> has_title_text t = false) ->
  title_from_heading node hs = None.
Proof.
  induction hs as [|h0 hs IH]; intros Hshort; [reflexivity |]. simpl.
  assert (Hrest : title_from_heading node hs = None).
  { apply IH. intros h t Hh. apply Hshort. by right. }
  destruct (find h0 node) as [t0 |] eqn:H0; [| exact Hrest].
  rewrite (Hshort h0 t0); [exact Hrest | by left | exact H0].
Qed.

End Headings.

(** C3, as amended.  When step 1 yields nothing, the Title Extractor goes
    through the heading levels 1 to 4 in order and looks, at each level, at
    the first heading of that level only: it returns that heading when its
    normalized visible text has at least five characters and goes on to the
    next level otherwise; when the first heading of every level is missing
    or too short, the result is that of the anchor fallback. *)
Theorem choose_title_first_heading_per_level (node : element) :
  title_from_job_anchor node = None ->
  (forall i h t,
     HEADINGS !! i = Some h -> head (find_all h node) = Some t ->
     5 <= Str.len (extract_visible_text t) ->
     (forall j h' t', j < i -> HEADINGS !! j = Some h' -> head (find_all h' node) = Some t' ->
                      Str.len (extract_visible_text t') < 5) ->
     choose_title node = Some t)
  /\ ((forall h t, h ∈ HEADINGS -> head (find_all h node) = Some t ->
                   Str.len (extract_visible_text t) < 5) ->
      choose_title node = title_from_any_anchor node).
Proof.
  intros Hstep1. unfold choose_title. rewrite Hstep1. split.
  - intros i h t Hi Hfind Hlong Hshort.
    rewrite (title_from_heading_first node HEADINGS i h t); try done.
    + by apply has_title_text_len.
    + intros j h' t' Hj Hh' Ht'. apply has_title_text_short. by apply (Hshort j h' t').
  - intros Hshort. rewrite title_from_heading_none; [reflexivity |].
    intros h t Hh Ht. apply has_title_text_short. by apply (Hshort h t).
Qed.

Lemma choose_title_first_heading_per_level_witness :
  choose_title ([0], headed_card)
  = Some ([0; 1], Tag "h4" no_attrs [NavigableString "Plant Manager"])
  /\ choose_title ([0], badge_card) = title_from_any_anchor ([0], badge_card).
Proof.
  split.
  - apply (proj1 (choose_title_first_heading_per_level ([0], headed_card) eq_refl) 3 "h4");
      [reflexivity | reflexivity | vm_compute; lia |].
    intros [|[|[|j]]] h' t' Hj Hh Ht; try lia;
      injection Hh as <-; vm_compute in Ht; try discriminate Ht.
    injection Ht as <-. vm_compute. lia.
  - apply (proj2 (choose_title_first_heading_per_level ([0], badge_card) eq_refl)).
    intros h t Hh Ht.
    repeat (apply elem_of_cons in Hh as [-> | Hh]);
      [vm_compute in Ht; try discriminate Ht .. | by apply elem_of_nil in Hh].
    injection Ht as <-. vm_compute. lia.
Defined.

(** C3, as stated, fails: in [badge_card] step 1 yields nothing, the first
    heading with at least five characters of text is the second heading of
    level 1, and the Title Extractor returns the anchor of step 3. *)
Lemma choose_title_later_heading_counterexample :
  title_from_job_anchor ([0], badge_card) = None
  /\ find_all "h1" ([0], badge_card)
     = [ ([0; 0], Tag "h1" no_attrs [NavigableString "New"]);
         ([0; 1], Tag "h1" no_attrs [NavigableString "Senior Engineer"]) ]
  /\ extract_visible_text ([0; 0], Tag "h1" no_attrs [NavigableString "New"]) = "New"
  /\ first_long_heading ([0], badge_card)
     = Some ([0; 1], Tag "h1" no_attrs [NavigableString "Senior Engineer"])
  /\ choose_title ([0], badge_card)
     = Some ([0; 2], Tag "a" (with_href "/apply") [NavigableString "Apply now"])
  /\ choose_title ([0], badge_card) <> first_long_heading ([0], badge_card).
Proof.
  repeat split; try reflexivity. vm_compute. discriminate.
Qed.

(** ** The matcher *)

Section Matcher.

Lemma append_cons (x : ascii) (a b : string) : String x a +:+ b = String x (a +:+ b).
Proof. reflexivity. Qed.

Lemma append_assoc (a b c : string) : (a +:+ b) +:+ c = a +:+ (b +:+ c).
Proof. induction a as [|x a IH]; [reflexivity | by rewrite !append_cons, IH]. Qed.

Lemma length_append (a b : string) :
  String.length (a +:+ b) = String.length a + String.length b.
Proof.
  induction a as [|x a IH]; [reflexivity |].
  rewrite append_cons. cbn [String.length]. by rewrite IH.
Qed.

Lemma substring_prefix (w s : string) : String.substring 0 (String.length w) (w +:+ s) = w.
Proof.
  induction w as [|x w IH]; [by destruct s |].
  rewrite append_cons. cbn [String.length String.substring]. by rewrite IH.
Qed.

Lemma all_chars_append (p : ascii -> bool) (a b : string) :
  Str.all_chars p (a +:+ b) = Str.all_chars p a && Str.all_chars p b.
Proof.
  induction a as [|x a IH]; [reflexivity |].
  rewrite append_cons. cbn [Str.all_chars]. by rewrite IH, andb_assoc.
Qed.

Lemma mstate_eta (st : Re.mstate) :
  {| Re.before := Re.before st; Re.pos := Re.pos st; Re.rest := Re.rest st;
     Re.groups := Re.groups st |} = st.
Proof. by destruct st. Qed.

(** A result of the greedy loop comes from some run of [p]. *)
Lemma star_sound (p : ascii -> bool) (k : Re.mstate -> option Re.mstate) (s : string) :
  forall b i gs res,
    Re.star p k b i gs s = Some res ->
    exists st', Re.matches (Re.Star p)
                  {| Re.before := b; Re.pos := i; Re.rest := s; Re.groups := gs |} st'
                /\ k st' = Some res.
Proof.
  induction s as [|c s IH]; intros b i gs res Hres; simpl in Hres.
  - eexists. split; [apply Re.m_star_stop | exact Hres].
  - destruct (p c) eqn:Hp; [| eexists; split; [apply Re.m_star_stop | exact Hres]].
    destruct (Re.star p k (Some c) (S i) gs s) as [res' |] eqn:Hrec.
    + injection Hres as <-. destruct (IH _ _ _ _ Hrec) as (st' & Hm & Hk).
      exists st'. split; [| exact Hk].
      by apply (Re.m_star_step p _ c s).
    + eexists. split; [apply Re.m_star_stop | exact Hres].
Qed.

(** A result of the matcher comes from a match of the pattern. *)
Lemma run_sound (r : Re.regex) :
  forall st k res,
    Re.run r st k = Some res ->
    exists st', Re.matches r st st' /\ k st' = Some res.
Proof.
  induction r as [| p | r1 IH1 r2 IH2 | r1 IH1 r2 IH2 | p | r IH | n r IH |];
    intros st k res Hres; simpl in Hres.
  - exists st. split; [constructor | exact Hres].
  - destruct (Re.rest st) as [|c s'] eqn:Hrest; [discriminate |].
    destruct (p c) eqn:Hp; [| discriminate].
    eexists. split; [by apply (Re.m_chr p st c s') | exact Hres].
  - destruct (IH1 _ _ _ Hres) as (st1 & Hm1 & Hres1).
    destruct (IH2 _ _ _ Hres1) as (st2 & Hm2 & Hres2).
    exists st2. split; [by apply Re.m_seq with st1 | exact Hres2].
  - destruct (Re.run r1 st k) as [res1 |] eqn:Hr1.
    + injection Hres as <-. destruct (IH1 _ _ _ Hr1) as (st' & Hm & Hk).
      exists st'. split; [by apply Re.m_alt_l | exact Hk].
    + destruct (IH2 _ _ _ Hres) as (st' & Hm & Hk).
      exists st'. split; [by apply Re.m_alt_r | exact Hk].
  - apply star_sound in Hres as (st' & Hm & Hk). rewrite mstate_eta in Hm.
    by exists st'.
  - destruct (Re.run r st k) as [res1 |] eqn:Hr1.
    + injection Hres as <-. destruct (IH _ _ _ Hr1) as (st' & Hm & Hk).
      exists st'. split; [by apply Re.m_opt_some | exact Hk].
    + exists st. split; [apply Re.m_opt_none | exact Hres].
  - destruct (IH _ _ _ Hres) as (st' & Hm & Hk).
    eexists. split; [apply Re.m_group, Hm | exact Hk].
  - destruct (Re.at_word_boundary st) eqn:Hb; [| discriminate].
    exists st. split; [by apply Re.m_wordb | exact Hres].
Qed.

(** A result of the search is a result of the matcher at some position. *)
Lemma search_from_sound (r : Re.regex) (s : string) :
  forall b i res,
    Re.search_from r b i s = Some res ->
    exists pre s',
      s = pre +:+ s'
      /\ Re.run r {| Re.before := Re.last_or b pre; Re.pos := i + String.length pre;
                     Re.rest := s'; Re.groups := [] |} Some = Some res.
Proof.
  induction s as [|c s IH]; intros b i res Hres; simpl in Hres.
  - destruct (Re.run r _ Some) as [res' |] eqn:Hrun; [| discriminate].
    injection Hres as <-. exists "", "". simpl. by rewrite Nat.add_0_r.
  - destruct (Re.run r _ Some) as [res' |] eqn:Hrun.
    + injection Hres as <-. exists "", (String c s). simpl. by rewrite Nat.add_0_r.
    + destruct (IH _ _ _ Hres) as (pre & s' & -> & Hrun').
      exists (String c pre), s'. simpl. split; [reflexivity |].
      by rewrite Nat.add_succ_r.
Qed.

End Matcher.

(** ** What the patterns read *)

Section Shapes.

Lemma reads_nil (st : Re.mstate) : Re.reads st "" st.
Proof. unfold Re.reads. simpl. by rewrite Nat.add_0_r. Qed.

Lemma reads_trans (st st1 st2 : Re.mstate) (w1 w2 : string) :
  Re.reads st w1 st1 -> Re.reads st1 w2 st2 -> Re.reads st (w1 +:+ w2) st2.
Proof.
  intros (Hr1 & Hp1 & Hg1) (Hr2 & Hp2 & Hg2). unfold Re.reads.
  rewrite Hr1, Hr2, append_assoc, length_append. repeat split; [lia | congruence].
Qed.

Lemma matches_chr_inv (p : ascii -> bool) (st st' : Re.mstate) :
  Re.matches (Re.Chr p) st st' ->
  exists c, Re.reads st (String c "") st' /\ p c = true.
Proof.
  inversion 1 as [| p' st0 c s' Hrest Hp | | | | | | | | |]; subst.
  exists c. split; [| exact Hp]. unfold Re.reads. simpl. repeat split; [exact Hrest | lia].
Qed.

Lemma matches_star_inv (p : ascii -> bool) (st st' : Re.mstate) :
  Re.matches (Re.Star p) st st' ->
  exists w, Re.reads st w st' /\ Str.all_chars p w = true.
Proof.
  intros Hm. remember (Re.Star p) as r eqn:Hr.
  induction Hm as [| | | | | p' st | p' st c s' st' Hrest Hp Hm IH | | | |];
    try discriminate Hr; injection Hr as ->.
  - exists "". split; [apply reads_nil | reflexivity].
  - destruct (IH eq_refl) as (w & (Hr1 & Hp1 & Hg1) & Hall).
    exists (String c w). split; [| simpl; by rewrite Hp, Hall].
    unfold Re.reads. simpl in *. rewrite Hrest, Hr1. repeat split; [lia | exact Hg1].
Qed.

Lemma matches_seq_inv (r1 r2 : Re.regex) (st st' : Re.mstate) :
  Re.matches (Re.Seq r1 r2) st st' ->
  exists st1, Re.matches r1 st st1 /\ Re.matches r2 st1 st'.
Proof. inversion 1; subst. eauto. Qed.

Lemma matches_group_inv (n : nat) (r : Re.regex) (st st'' : Re.mstate) :
  Re.matches (Re.Group n r) st st'' ->
  exists st', Re.matches r st st'
    /\ Re.rest st'' = Re.rest st' /\ Re.pos st'' = Re.pos st'
    /\ Re.groups st''
       = (n, String.substring 0 (Re.pos st' - Re.pos st) (Re.rest st)) :: Re.groups st'.
Proof. inversion 1; subst. eexists. split; [eassumption | done]. Qed.

Lemma lower_char_eqb (c d : ascii) :
  Ascii.eqb (Str.lower_char d) (Str.lower_char c) = true ->
  Str.lower_char d = Str.lower_char c.
Proof. apply Ascii.eqb_eq. Qed.

(** A literal word under [re.I] reads a text equal to it up to case. *)
Lemma matches_word_i_inv (w0 : string) :
  forall st st', Re.matches (Re.word_i w0) st st' ->
  exists w, Re.reads st w st' /\ Str.lower w = Str.lower w0.
Proof.
  induction w0 as [|c w0 IH]; intros st st' Hm.
  - inversion Hm; subst. exists "". split; [apply reads_nil | reflexivity].
  - destruct w0 as [|c' w0].
    + apply matches_chr_inv in Hm as (d & Hr & Hd). exists (String d "").
      split; [exact Hr |]. simpl. by rewrite (lower_char_eqb _ _ Hd).
    + change (Re.word_i (String c (String c' w0)))
        with (Re.Seq (Re.chr_i c) (Re.word_i (String c' w0))) in Hm.
      apply matches_seq_inv in Hm as (st1 & Hm1 & Hm2).
      apply matches_chr_inv in Hm1 as (d & Hr & Hd).
      destruct (IH _ _ Hm2) as (w & Hw & Hlow).
      exists (String d w). split; [apply (reads_trans _ _ _ _ _ Hr Hw) |].
      cbn [Str.lower]. by rewrite (lower_char_eqb _ _ Hd), Hlow.
Qed.

End Shapes.

(** ** The matcher finds what matches *)

Section Completeness.

Lemma star_stop_found (p : ascii -> bool) (k : Re.mstate -> option Re.mstate) (s : string) :
  forall b i gs,
    is_Some (k {| Re.before := b; Re.pos := i; Re.rest := s; Re.groups := gs |}) ->
    is_Some (Re.star p k b i gs s).
Proof.
  destruct s as [|c s]; intros b i gs Hk; simpl; [exact Hk |].
  destruct (p c); [| exact Hk].
  destruct (Re.star p k (Some c) (S i) gs s); [by eexists | exact Hk].
Qed.

(** Whenever the pattern matches up to a position that the continuation
    accepts, the matcher returns a result. *)
Lemma run_complete (r : Re.regex) (st st' : Re.mstate) :
  Re.matches r st st' ->
  forall k, is_Some (k st') -> is_Some (Re.run r st k).
Proof.
  induction 1 as [ st | p st c s' Hrest Hp | r1 r2 st st1 st2 _ IH1 _ IH2
                 | r1 r2 st st' _ IH | r1 r2 st st' _ IH | p st
                 | p st c s' st' Hrest Hp _ IH | r st st' _ IH | r st
                 | n r st st' _ IH | st Hb ]; intros k Hk; simpl.
  - exact Hk.
  - by rewrite Hrest, Hp.
  - apply IH1, IH2, Hk.
  - destruct (IH k Hk) as [res ->]. by eexists.
  - destruct (Re.run r1 st k); [by eexists | by apply IH].
  - apply star_stop_found. by rewrite mstate_eta.
  - rewrite Hrest. simpl. rewrite Hp.
    specialize (IH k Hk). simpl in IH. destruct IH as [res ->]. by eexists.
  - destruct (IH k Hk) as [res ->]. by eexists.
  - destruct (Re.run r st k); [by eexists | exact Hk].
  - by apply IH.
  - by rewrite Hb.
Qed.

Lemma search_from_complete (r : Re.regex) (pre : string) :
  forall b i s',
    is_Some (Re.run r {| Re.before := Re.last_or b pre; Re.pos := i + String.length pre;
                         Re.rest := s'; Re.groups := [] |} Some) ->
    is_Some (Re.search_from r b i (pre +:+ s')).
Proof.
  induction pre as [|c pre IH]; intros b i s' Hrun.
  - simpl in Hrun. rewrite Nat.add_0_r in Hrun. change ("" +:+ s') with s'.
    destruct s' as [|c s']; simpl; destruct Hrun as [res Hrun]. all: rewrite Hrun; by eexists.
  - rewrite append_cons. simpl.
    match goal with |- is_Some (match ?x with _ => _ end) => destruct x end; [by eexists |].
    apply IH. simpl in Hrun. by rewrite Nat.add_succ_r in Hrun.
Qed.

Lemma chr_matches (p : ascii -> bool) (st : Re.mstate) (c : ascii) (s' : string) :
  Re.rest st = String c s' -> p c = true ->
  exists st', Re.matches (Re.Chr p) st st' /\ Re.rest st' = s'.
Proof. intros Hrest Hp. eexists. split; [by apply (Re.m_chr p st c s') | reflexivity]. Qed.

Lemma star_matches (p : ascii -> bool) (w : string) :
  forall st s', Re.rest st = w +:+ s' -> Str.all_chars p w = true ->
  exists st', Re.matches (Re.Star p) st st' /\ Re.rest st' = s'.
Proof.
  induction w as [|c w IH]; intros st s' Hrest Hall.
  - exists st. split; [apply Re.m_star_stop | exact Hrest].
  - cbn [Str.all_chars] in Hall. apply andb_true_iff in Hall as [Hc Hall].
    rewrite append_cons in Hrest.
    destruct (IH {| Re.before := Some c; Re.pos := S (Re.pos st); Re.rest := w +:+ s';
                    Re.groups := Re.groups st |} s' eq_refl Hall) as (st' & Hm & Hr).
    exists st'. split; [by apply (Re.m_star_step p st c (w +:+ s')) | exact Hr].
Qed.

Lemma word_i_matches (w0 : string) :
  forall w st s', Str.lower w = Str.lower w0 -> Re.rest st = w +:+ s' ->
  exists st', Re.matches (Re.word_i w0) st st' /\ Re.rest st' = s'.
Proof.
  induction w0 as [|c w0 IH]; intros [|d w] st s' Hlow Hrest; try discriminate Hlow.
  - exists st. split; [apply Re.m_eps | exact Hrest].
  - cbn [Str.lower] in Hlow. injection Hlow as Hd Hlow. rewrite append_cons in Hrest.
    assert (Hp : Ascii.eqb (Str.lower_char d) (Str.lower_char c) = true)
      by (by apply Ascii.eqb_eq).
    destruct (chr_matches (fun x => Ascii.eqb (Str.lower_char x) (Str.lower_char c))
                st d (w +:+ s') Hrest Hp) as (st1 & Hm1 & Hr1).
    fold (Re.chr_i c) in Hm1.
    destruct w0 as [|c' w0].
    + destruct w as [|d' w]; [| discriminate Hlow]. by exists st1.
    + destruct (IH w st1 s' Hlow Hr1) as (st' & Hm & Hr).
      exists st'. split; [| exact Hr]. by apply Re.m_seq with st1.
Qed.

Lemma group_matches (n : nat) (r : Re.regex) (st st' : Re.mstate) :
  Re.matches r st st' ->
  exists st'', Re.matches (Re.Group n r) st st'' /\ Re.rest st'' = Re.rest st'.
Proof. intros Hm. eexists. split; [apply Re.m_group, Hm | reflexivity]. Qed.

End Completeness.

(** ** The location pattern, conversely *)

Section LocationFound.

Lemma lower_word (c : ascii) : Re.is_word (Str.lower_char c) = true -> Re.is_word c = true.
Proof. destruct c as [[] [] [] [] [] [] [] []]; vm_compute; intros H; exact H. Qed.

Lemma marker_starts_word (marker s : string) :
  Str.lower marker = "location" \/ Str.lower marker = "city" ->
  Re.is_word_opt (Re.next_char (marker +:+ s)) = true.
Proof.
  intros [H | H]; destruct marker as [|c m]; try discriminate H;
    cbn [Str.lower] in H; injection H as Hc _;
    rewrite append_cons; simpl; apply lower_word; by rewrite Hc.
Qed.

(** A text of the shape of the pattern is matched by it. *)
Lemma location_shape_matches (st : Re.mstate) (marker ws1 ws2 run post : string) (sep : ascii) :
  Re.rest st = marker +:+ ws1 +:+ String sep (ws2 +:+ run +:+ post) ->
  Re.at_word_boundary st = true ->
  Str.lower marker = "location" \/ Str.lower marker = "city" ->
  Str.all_chars Str.is_space ws1 = true ->
  Re.is_sep sep = true ->
  Str.all_chars Str.is_space ws2 = true ->
  Str.truthy run = true ->
  Str.all_chars Re.not_bar_nl run = true ->
  exists st', Re.matches LOCATION_RE st st'.
Proof.
  intros Hrest Hwb Hlow Hws1 Hsep Hws2 Hne Hrun.
  assert (Hmark : exists st1, Re.matches (Re.Alt (Re.word_i "Location") (Re.word_i "City")) st st1
                              /\ Re.rest st1 = ws1 +:+ String sep (ws2 +:+ run +:+ post)).
  { destruct Hlow as [Hlow | Hlow].
    - destruct (word_i_matches "Location" marker st _ Hlow Hrest) as (st1 & Hm & Hr).
      exists st1. split; [by apply Re.m_alt_l | exact Hr].
    - destruct (word_i_matches "City" marker st _ Hlow Hrest) as (st1 & Hm & Hr).
      exists st1. split; [by apply Re.m_alt_r | exact Hr]. }
  destruct Hmark as (st1 & Hm1 & Hr1).
  destruct (group_matches 1 _ _ _ Hm1) as (st1' & Hg1 & Hr1'). rewrite Hr1 in Hr1'.
  destruct (star_matches Str.is_space ws1 st1' _ Hr1' Hws1) as (st2 & Hm2 & Hr2).
  destruct (chr_matches Re.is_sep st2 sep _ Hr2 Hsep) as (st3 & Hm3 & Hr3).
  destruct (star_matches Str.is_space ws2 st3 _ Hr3 Hws2) as (st4 & Hm4 & Hr4).
  destruct run as [|c run]; [discriminate Hne |].
  cbn [Str.all_chars] in Hrun. apply andb_true_iff in Hrun as [Hc Hrun].
  rewrite append_cons in Hr4.
  destruct (chr_matches Re.not_bar_nl st4 c _ Hr4 Hc) as (st5 & Hm5 & Hr5).
  destruct (star_matches Re.not_bar_nl run st5 _ Hr5 Hrun) as (st6 & Hm6 & Hr6).
  destruct (group_matches 2 _ _ _ (Re.m_seq _ _ _ _ _ Hm5 Hm6)) as (st7 & Hg2 & _).
  exists st7. unfold LOCATION_RE. cbn [Re.cat].
  apply Re.m_seq with st; [by apply Re.m_wordb |].
  apply Re.m_seq with st1'; [exact Hg1 |].
  apply Re.m_seq with st2; [exact Hm2 |].
  apply Re.m_seq with st3; [exact Hm3 |].
  apply Re.m_seq with st4; [exact Hm4 | exact Hg2].
Qed.

End LocationFound.

(** ** Which match the matcher settles on *)

Section Priority.

(** When the greedy loop fails, the continuation fails after every run. *)
Lemma star_none (p : ascii -> bool) (k : Re.mstate -> option Re.mstate) (s : string) :
  forall b i gs,
    Re.star p k b i gs s = None ->
    forall w2 s2, s = w2 +:+ s2 -> Str.all_chars p w2 = true ->
      k {| Re.before := Re.last_or b w2; Re.pos := i + String.length w2;
           Re.rest := s2; Re.groups := gs |} = None.
Proof.
  induction s as [|c s IH]; intros b i gs Hnone w2 s2 Hs Hall.
  - destruct w2 as [|c2 w2]; [| discriminate Hs]. change ("" +:+ s2) with s2 in Hs. subst s2.
    simpl. rewrite Nat.add_0_r. exact Hnone.
  - simpl in Hnone. destruct w2 as [|c2 w2].
    + change ("" +:+ s2) with s2 in Hs. subst s2. simpl. rewrite Nat.add_0_r.
      destruct (p c); [| exact Hnone].
      destruct (Re.star p k (Some c) (S i) gs s); [discriminate Hnone | exact Hnone].
    + rewrite append_cons in Hs. injection Hs as <- Hs.
      cbn [Str.all_chars] in Hall. apply andb_true_iff in Hall as [Hc Hall].
      rewrite Hc in Hnone.
      destruct (Re.star p k (Some c) (S i) gs s) eqn:Hrec; [discriminate Hnone |].
      simpl. rewrite Nat.add_succ_r. by apply (IH (Some c) (S i) gs Hrec).
Qed.

(** The greedy loop settles on the longest run after which the continuation
    succeeds. *)
Lemma star_greedy (p : ascii -> bool) (k : Re.mstate -> option Re.mstate) (s : string) :
  forall b i gs res,
    Re.star p k b i gs s = Some res ->
    exists w s',
      s = w +:+ s'
      /\ Str.all_chars p w = true
      /\ k {| Re.before := Re.last_or b w; Re.pos := i + String.length w;
              Re.rest := s'; Re.groups := gs |} = Some res
      /\ forall w2 s2, s = w2 +:+ s2 -> Str.all_chars p w2 = true ->
           String.length w < String.length w2 ->
           k {| Re.before := Re.last_or b w2; Re.pos := i + String.length w2;
                Re.rest := s2; Re.groups := gs |} = None.
Proof.
  induction s as [|c s IH]; intros b i gs res Hres.
  - exists "", "". simpl in Hres. simpl. rewrite Nat.add_0_r.
    repeat split; [exact Hres |].
    intros [|c2 w2] s2 Hs _ Hlen; [simpl in Hlen; lia | discriminate Hs].
  - simpl in Hres. destruct (p c) eqn:Hp.
    + destruct (Re.star p k (Some c) (S i) gs s) as [res' |] eqn:Hrec.
      * injection Hres as <-.
        destruct (IH _ _ _ _ Hrec) as (w & s' & -> & Hall & Hk & Hlong).
        exists (String c w), s'. simpl. rewrite Hp, Hall, Nat.add_succ_r.
        repeat split; [exact Hk |].
        intros [|c2 w2] s2 Hs Hall2 Hlen; [simpl in Hlen; lia |].
        rewrite append_cons in Hs. injection Hs as <- Hs.
        cbn [Str.all_chars] in Hall2. apply andb_true_iff in Hall2 as [_ Hall2].
        simpl. rewrite Nat.add_succ_r. apply Hlong; [exact Hs | exact Hall2 |].
        simpl in Hlen. lia.
      * exists "", (String c s). simpl. rewrite Nat.add_0_r.
        repeat split; [exact Hres |].
        intros [|c2 w2] s2 Hs Hall2 Hlen; [simpl in Hlen; lia |].
        rewrite append_cons in Hs. injection Hs as <- Hs.
        cbn [Str.all_chars] in Hall2. apply andb_true_iff in Hall2 as [_ Hall2].
        simpl. rewrite Nat.add_succ_r.
        by apply (star_none p k s (Some c) (S i) gs Hrec).
    + exists "", (String c s). simpl. rewrite Nat.add_0_r.
      repeat split; [exact Hres |].
      intros [|c2 w2] s2 Hs Hall2 Hlen; [simpl in Hlen; lia |].
      rewrite append_cons in Hs. injection Hs as <- Hs.
      cbn [Str.all_chars] in Hall2. rewrite Hp in Hall2. discriminate Hall2.
Qed.

(** The search settles on the leftmost position at which the matcher
    succeeds. *)
Lemma search_from_first (r : Re.regex) (s : string) :
  forall b i res,
    Re.search_from r b i s = Some res ->
    exists pre s',
      s = pre +:+ s'
      /\ Re.run r {| Re.before := Re.last_or b pre; Re.pos := i + String.length pre;
                     Re.rest := s'; Re.groups := [] |} Some = Some res
      /\ forall pre1 s1, s = pre1 +:+ s1 -> String.length pre1 < String.length pre ->
           Re.run r {| Re.before := Re.last_or b pre1; Re.pos := i + String.length pre1;
                       Re.rest := s1; Re.groups := [] |} Some = None.
Proof.
  induction s as [|c s IH]; intros b i res Hres; simpl in Hres.
  - destruct (Re.run r _ Some) as [res' |] eqn:Hrun; [| discriminate].
    injection Hres as <-. exists "", "". simpl. rewrite Nat.add_0_r.
    repeat split; [exact Hrun |]. intros pre1 s1 _ Hlen. lia.
  - destruct (Re.run r _ Some) as [res' |] eqn:Hrun.
    + injection Hres as <-. exists "", (String c s). simpl. rewrite Nat.add_0_r.
      repeat split; [exact Hrun |]. intros pre1 s1 _ Hlen. lia.
    + destruct (IH _ _ _ Hres) as (pre & s' & -> & Hrun' & Hleft).
      exists (String c pre), s'. simpl. rewrite Nat.add_succ_r.
      repeat split; [exact Hrun' |].
      intros [|c1 pre1] s1 Hs Hlen.
      * change ("" +:+ s1) with s1 in Hs. subst s1. simpl. rewrite Nat.add_0_r. exact Hrun.
      * rewrite append_cons in Hs. injection Hs as <- Hs.
        simpl. rewrite Nat.add_succ_r. apply Hleft; [exact Hs |]. simpl in Hlen. lia.
Qed.

Lemma run_seq_sound (r1 r2 : Re.regex) (st : Re.mstate)
    (k : Re.mstate -> option Re.mstate) (res : Re.mstate) :
  Re.run (Re.Seq r1 r2) st k = Some res ->
  exists st1, Re.matches r1 st st1 /\ Re.run r2 st1 k = Some res.
Proof. intros Hrun. exact (run_sound r1 st (fun st' => Re.run r2 st' k) res Hrun). Qed.

End Priority.

(** ** Texts that split in one way only *)

Section Splits.




Lemma spells_lower (word marker : string) :
  spells word marker = true <-> Str.lower marker = Str.lower word.
Proof.
  revert marker. induction word as [|c word IH]; intros [|d marker]; simpl; try done.
  unfold accepts_i. rewrite andb_true_iff, Ascii.eqb_eq, IH. split.
  - intros [-> ->]. reflexivity.
  - intros [= -> ->]. done.
Qed.


Lemma marker_lower (marker : string) :
  spells "Location" marker = true \/ spells "City" marker = true <->
  Str.lower marker = "location" \/ Str.lower marker = "city".
Proof. by rewrite !spells_lower. Qed.



End Splits.

(** ** The location pattern *)

Section LocationPattern.

(** What the matcher settles on for the location pattern: the text it
    reads, what its second group holds, and the choices it made. *)
Lemma location_run_exact (st res : Re.mstate) :
  Re.run LOCATION_RE st Some = Some res ->
  exists marker ws1 sep ws2 run post,
    Re.rest st = marker +:+ ws1 +:+ String sep (ws2 +:+ run +:+ post)
    /\ Re.at_word_boundary st = true
    /\ (Str.lower marker = "location" \/ Str.lower marker = "city")
    /\ Str.all_chars Str.is_space ws1 = true
    /\ Re.is_sep sep = true
    /\ Str.all_chars Str.is_space ws2 = true
    /\ Str.truthy run = true
    /\ Str.all_chars Re.not_bar_nl run = true
    /\ Re.group 2 res = run
    /\ (forall ws2' c rest',
          ws2 +:+ run +:+ post = ws2' +:+ String c rest' ->
          Str.all_chars Str.is_space ws2' = true ->
          Re.not_bar_nl c = true ->
          String.length ws2' <= String.length ws2)
    /\ (post = "" \/ exists c post', post = String c post' /\ Re.not_bar_nl c = false).
Proof.
  unfold LOCATION_RE.
  change (Re.cat (?a :: ?b :: ?c :: ?d :: ?e :: [?g]))
    with (Re.Seq a (Re.Seq b (Re.Seq c (Re.Seq d (Re.Seq e g))))).
  intros Hrun.
  apply run_seq_sound in Hrun as (st0 & Hb & Hrun).
  inversion Hb as [| | | | | | | | | | st0' Hwb]; subst st0' st0.
  apply run_seq_sound in Hrun as (st1 & Hg1 & Hrun).
  apply run_seq_sound in Hrun as (st2 & Hs1 & Hrun).
  apply run_seq_sound in Hrun as (st3 & Hsep & Hrun).
  apply matches_group_inv in Hg1 as (st1' & Hmark & Hrest1 & Hpos1 & Hgr1).
  assert (Hmarker : exists marker, Re.reads st marker st1'
            /\ (Str.lower marker = "location" \/ Str.lower marker = "city")).
  { inversion Hmark as [| | | r1 r2 sa sb Hl | r1 r2 sa sb Hr | | | | | |]; subst.
    - apply (matches_word_i_inv "Location") in Hl as (w & Hw & Hlow).
      exists w. split; [done | by left].
    - apply (matches_word_i_inv "City") in Hr as (w & Hw & Hlow).
      exists w. split; [done | by right]. }
  destruct Hmarker as (marker & (Hmr & Hmp & Hmg) & Hlow).
  apply matches_star_inv in Hs1 as (ws1 & (H1r & H1p & H1g) & Hws1).
  apply matches_chr_inv in Hsep as (sep & (H2r & H2p & H2g) & Hsepc).
  simpl in H2r.
  (* the white space after the separator *)
  change (Re.star Str.is_space
            (fun st' => Re.run (Re.Group 2 (Re.plus Re.not_bar_nl)) st' Some)
            (Re.before st3) (Re.pos st3) (Re.groups st3) (Re.rest st3) = Some res) in Hrun.
  apply star_greedy in Hrun as (ws2 & s4 & H3r & Hws2 & Hrun & Hlong).
  (* the run *)
  set (st4 := {| Re.before := Re.last_or (Re.before st3) ws2;
                 Re.pos := Re.pos st3 + String.length ws2;
                 Re.rest := s4; Re.groups := Re.groups st3 |}) in *.
  unfold Re.plus in Hrun.
  change (Re.run (Re.Seq (Re.Chr Re.not_bar_nl) (Re.Star Re.not_bar_nl)) st4
            (fun st' => Some {| Re.before := Re.before st'; Re.pos := Re.pos st';
                                Re.rest := Re.rest st';
                                Re.groups := (2, String.substring 0 (Re.pos st' - Re.pos st4)
                                                   (Re.rest st4)) :: Re.groups st' |})
          = Some res) in Hrun.
  apply run_seq_sound in Hrun as (st5 & Hc & Hrun).
  apply matches_chr_inv in Hc as (c & (H4r & H4p & H4g) & Hcc). simpl in H4r, H4p.
  change (Re.star Re.not_bar_nl
            (fun st' => Some {| Re.before := Re.before st'; Re.pos := Re.pos st';
                                Re.rest := Re.rest st';
                                Re.groups := (2, String.substring 0 (Re.pos st' - Re.pos st4)
                                                   (Re.rest st4)) :: Re.groups st' |})
            (Re.before st5) (Re.pos st5) (Re.groups st5) (Re.rest st5) = Some res) in Hrun.
  apply star_greedy in Hrun as (w & post & H5r & Hwall & Hres & Hmax).
  cbv beta in Hres. simpl in Hres. injection Hres as <-.
  exists marker, ws1, sep, ws2, (String c w), post.
  assert (Hs4 : s4 = String c w +:+ post).
  { rewrite H4r, H5r. reflexivity. }
  split.
  { rewrite Hmr, <- Hrest1, H1r, H2r, H3r, Hs4. reflexivity. }
  split; [exact Hwb |]. split; [exact Hlow |]. split; [exact Hws1 |].
  split; [exact Hsepc |]. split; [exact Hws2 |]. split; [reflexivity |].
  split; [simpl; by rewrite Hcc, Hwall |].
  split.
  { unfold Re.group, st4.
    cbn [Re.groups Re.pos Re.rest Re.lookup_group Nat.eqb].
    rewrite Hs4, H4p.
    replace (Re.pos st3 + String.length ws2 + 1 + String.length w
             - (Re.pos st3 + String.length ws2))
      with (String.length (String c w)) by (simpl; lia).
    apply substring_prefix. }
  split.
  - intros ws2' c' rest' Heq Hsp Hnb.
    destruct (Nat.le_gt_cases (String.length ws2') (String.length ws2)) as [Hle | Hgt];
      [exact Hle | exfalso].
    rewrite <- Hs4, <- H3r in Heq.
    specialize (Hlong ws2' (String c' rest') Heq Hsp Hgt).
    set (st' := {| Re.before := Re.last_or (Re.before st3) ws2';
                   Re.pos := Re.pos st3 + String.length ws2';
                   Re.rest := String c' rest'; Re.groups := Re.groups st3 |}) in *.
    destruct (chr_matches Re.not_bar_nl st' c' rest' eq_refl Hnb) as (sa & Hma & _).
    destruct (group_matches 2 _ _ _
                (Re.m_seq _ _ _ _ _ Hma (Re.m_star_stop Re.not_bar_nl sa)))
      as (sb & Hmb & _).
    destruct (run_complete _ _ _ Hmb Some) as [res' Hres']; [by eexists |].
    unfold Re.plus in Hlong. rewrite Hlong in Hres'. discriminate Hres'.
  - destruct post as [|c' post']; [by left | right].
    exists c', post'. split; [reflexivity |].
    destruct (Re.not_bar_nl c') eqn:Hnb; [exfalso | reflexivity].
    assert (Hsplit : Re.rest st5 = (w +:+ String c' "") +:+ post')
      by (by rewrite H5r, append_assoc).
    assert (Hall : Str.all_chars Re.not_bar_nl (w +:+ String c' "") = true)
      by (rewrite all_chars_append, Hwall; simpl; by rewrite Hnb).
    specialize (Hmax _ _ Hsplit Hall). rewrite length_append in Hmax. simpl in Hmax.
    specialize (Hmax ltac:(lia)). discriminate Hmax.
Qed.

End LocationPattern.

(** ** The location extractor *)

Section Location.

Lemma location_in_text_complete (text pre marker ws1 : string) (sep : ascii)
    (ws2 run post : string) :
  location_occurrence text pre marker ws1 sep ws2 run post ->
  is_Some (Re.run LOCATION_RE
             {| Re.before := Re.last_or None pre; Re.pos := 0 + String.length pre;
                Re.rest := marker +:+ ws1 +:+ String sep (ws2 +:+ run +:+ post);
                Re.groups := [] |} Some)
  /\ is_Some (location_in_text text).
Proof.
  intros (-> & Hb & Hlow & H1 & H2 & H3 & H4 & H5). apply marker_lower in Hlow.
  set (s' := marker +:+ ws1 +:+ String sep (ws2 +:+ run +:+ post)).
  set (st := {| Re.before := Re.last_or None pre; Re.pos := 0 + String.length pre;
                Re.rest := s'; Re.groups := [] |}).
  assert (Hwb : Re.at_word_boundary st = true).
  { unfold Re.at_word_boundary, st, s'. simpl.
    by rewrite Hb, marker_starts_word. }
  destruct (location_shape_matches st marker ws1 ws2 run post sep eq_refl Hwb Hlow H1 H2 H3 H4 H5)
    as (st' & Hm).
  assert (Hrun : is_Some (Re.run LOCATION_RE st Some))
    by (apply (run_complete _ _ _ Hm); by eexists).
  split; [exact Hrun |].
  assert (Hfound : is_Some (Re.search_from LOCATION_RE None 0 (pre +:+ s')))
    by (by apply search_from_complete).
  unfold location_in_text, Re.search. destruct Hfound as [m ->]. by eexists.
Qed.

(** What the search with the location pattern returns comes from the
    occurrence that it settles on. *)
Lemma location_in_text_first (text s : string) :
  location_in_text text = Some s ->
  exists pre marker ws1 sep ws2 run post,
    first_location_occurrence text pre marker ws1 sep ws2 run post /\ s = Str.strip run.
Proof.
  unfold location_in_text, Re.search.
  destruct (Re.search_from LOCATION_RE None 0 text) as [m |] eqn:Hsearch; [| discriminate].
  intros [= <-].
  apply search_from_first in Hsearch as (pre & s' & -> & Hrun & Hleft).
  apply location_run_exact in Hrun
    as (marker & ws1 & sep & ws2 & run & post & Hrest & Hwb & Hlow & H1 & H2 & H3 & H4 & H5
        & Hg & Hgreedy & Hstop).
  simpl in Hrest. exists pre, marker, ws1, sep, ws2, run, post.
  split; [| by rewrite Hg].
  split; [| split; [| split; [exact Hgreedy | exact Hstop]]].
  - unfold location_occurrence. rewrite Hrest. repeat split; try assumption.
    + unfold Re.at_word_boundary in Hwb. simpl in Hwb.
      rewrite Hrest, marker_starts_word, xorb_true_r in Hwb by exact Hlow.
      by apply negb_true_iff.
    + by apply marker_lower.
  - intros pre' marker' ws1' sep' ws2' run' post' Hocc.
    destruct (Nat.le_gt_cases (String.length pre) (String.length pre')) as [Hle | Hgt];
      [exact Hle | exfalso].
    destruct (location_in_text_complete _ _ _ _ _ _ _ _ Hocc) as [[res Hres] _].
    destruct Hocc as (Heq & _).
    rewrite (Hleft _ _ Heq Hgt) in Hres. discriminate Hres.
Qed.


Lemma location_in_text_sound (text s : string) :
  location_in_text text = Some s ->
  exists pre marker ws1 sep ws2 run post,
    location_occurrence text pre marker ws1 sep ws2 run post /\ s = Str.strip run.
Proof.
  intros Hloc. apply location_in_text_first in Hloc
    as (pre & marker & ws1 & sep & ws2 & run & post & (Hocc & _) & Hs).
  by exists pre, marker, ws1, sep, ws2, run, post.
Qed.





End Location.




(** * Further properties of the code *)

(** ** Normalized text *)

Section Normalized.

Lemma ends_clean_flag (s : string) (f : bool) :
  ends_clean_from true s = true -> ends_clean_from f s = true.
Proof. destruct s; [discriminate | exact id]. Qed.

Lemma ends_clean_append (a b : string) (c : ascii) (f : bool) :
  ends_clean_from f (a +:+ String c b) = ends_clean_from (Str.is_space c) b.
Proof.
  revert f. induction a as [|x a IH]; intros f; [reflexivity |].
  rewrite append_cons. cbn [ends_clean_from]. apply IH.
Qed.

Lemma rstrip_ends_clean (s : string) :
  ends_clean_from false (Str.rstrip_by Str.is_space s) = true
  /\ (Str.truthy (Str.rstrip_by Str.is_space s) = true ->
      ends_clean_from true (Str.rstrip_by Str.is_space s) = true).
Proof.
  induction s as [|c s [IH0 IH1]]; [by split |].
  cbn [Str.rstrip_by].
  destruct (Str.rstrip_by Str.is_space s) as [|d r] eqn:Hr.
  - destruct (Str.is_space c) eqn:Hc; [by split |].
    cbn [ends_clean_from]. rewrite Hc. by split.
  - specialize (IH1 eq_refl). cbn [ends_clean_from] in *. by split.
Qed.

Lemma rstrip_starts_clean (s : string) :
  starts_clean s = true -> starts_clean (Str.rstrip_by Str.is_space s) = true.
Proof.
  destruct s as [|c s]; [done |]. cbn [Str.rstrip_by starts_clean]. intros Hc.
  destruct (Str.rstrip_by Str.is_space s); [| exact Hc].
  apply negb_true_iff in Hc. rewrite Hc. simpl. by rewrite Hc.
Qed.

Lemma lstrip_starts_clean (s : string) : starts_clean (Str.lstrip_by Str.is_space s) = true.
Proof.
  induction s as [|c s IH]; [reflexivity |]. cbn [Str.lstrip_by].
  destruct (Str.is_space c) eqn:Hc; [exact IH |]. simpl. by rewrite Hc.
Qed.

Lemma lstrip_fix (s : string) : starts_clean s = true -> Str.lstrip_by Str.is_space s = s.
Proof.
  destruct s as [|c s]; [done |]. simpl. intros Hc.
  apply negb_true_iff in Hc. by rewrite Hc.
Qed.

Lemma rstrip_fix (s : string) (f : bool) :
  ends_clean_from f s = true -> Str.rstrip_by Str.is_space s = s.
Proof.
  revert f. induction s as [|c s IH]; intros f H; [reflexivity |].
  cbn [ends_clean_from] in H. cbn [Str.rstrip_by]. rewrite (IH _ H).
  destruct s as [|d s]; [| reflexivity].
  simpl in H. apply negb_true_iff in H. by rewrite H.
Qed.

(** The output of [strip] is clean at both ends. *)
Lemma strip_clean (s : string) :
  starts_clean (Str.strip s) = true /\ ends_clean_from false (Str.strip s) = true.
Proof.
  unfold Str.strip. split.
  - apply rstrip_starts_clean, lstrip_starts_clean.
  - apply rstrip_ends_clean.
Qed.

(** A text that is clean at both ends is its own [strip]. *)
Lemma strip_fix (s : string) (f : bool) :
  starts_clean s = true -> ends_clean_from f s = true -> trimmed s.
Proof.
  intros Hs He. unfold trimmed, Str.strip. rewrite (lstrip_fix s Hs). by apply rstrip_fix with f.
Qed.

Lemma strip_trimmed (s : string) : trimmed (Str.strip s).
Proof. destruct (strip_clean s) as [Hs He]. by apply strip_fix with false. Qed.

(** The pieces that [get_text] joins. *)
Lemma join_clean (pieces : list string) :
  Forall (fun p => starts_clean p = true /\ ends_clean_from true p = true) pieces ->
  starts_clean (Str.join " " pieces) = true
  /\ ends_clean_from false (Str.join " " pieces) = true.
Proof.
  induction 1 as [|p ps [Hs He] Hps [_ IHe]]; [by split |].
  destruct ps as [|p' ps].
  - split; [exact Hs | by apply ends_clean_flag].
  - change (Str.join " " (p :: p' :: ps)) with (p +:+ String " " (Str.join " " (p' :: ps))).
    split.
    + destruct p as [|c p]; [discriminate He | exact Hs].
    + rewrite ends_clean_append.
      apply Forall_cons in Hps as [[_ He'] _].
      assert (Hne : Str.truthy (Str.join " " (p' :: ps)) = true).
      { destruct p' as [|c' p']; [discriminate He' |]. by destruct ps. }
      destruct (Str.join " " (p' :: ps)); [discriminate Hne | exact IHe].
Qed.

Lemma collapse_single_spaced (s : string) (f : bool) :
  ends_clean_from f s = true ->
  single_spaced_from f (Str.collapse_from f s) = true.
Proof.
  revert f. induction s as [|c s IH]; intros f H; [exact H |].
  cbn [ends_clean_from] in H. cbn [Str.collapse_from].
  destruct (Str.is_space c) eqn:Hc.
  - destruct f; [by apply IH |].
    cbn [single_spaced_from]. by rewrite (IH true H).
  - cbn [single_spaced_from]. rewrite Hc. by apply IH.
Qed.

Lemma collapse_fix (s : string) (f : bool) :
  single_spaced_from f s = true -> Str.collapse_from f s = s.
Proof.
  revert f. induction s as [|c s IH]; intros f H; [reflexivity |].
  cbn [single_spaced_from] in H. cbn [Str.collapse_from].
  destruct (Str.is_space c) eqn:Hc.
  - apply andb_true_iff in H as [H H3]. apply andb_true_iff in H as [H1 H2].
    apply negb_true_iff in H2. subst f. apply Ascii.eqb_eq in H1. subst c.
    by rewrite (IH true H3).
  - by rewrite (IH false H).
Qed.

Lemma single_spaced_ends_clean (s : string) (f : bool) :
  single_spaced_from f s = true -> ends_clean_from f s = true.
Proof.
  revert f. induction s as [|c s IH]; intros f H; [exact H |].
  cbn [single_spaced_from] in H. cbn [ends_clean_from].
  destruct (Str.is_space c).
  - apply andb_true_iff in H as [_ H]. by apply IH.
  - by apply IH.
Qed.

Lemma normalized_starts_clean (s : string) : normalized s = true -> starts_clean s = true.
Proof.
  destruct s as [|c s]; [done |]. unfold normalized. cbn [single_spaced_from starts_clean].
  destruct (Str.is_space c); [| done]. by rewrite andb_false_r.
Qed.

Lemma normalized_trimmed (s : string) : normalized s = true -> trimmed s.
Proof.
  intros H. destruct s as [|c s]; [reflexivity |].
  apply strip_fix with true; [by apply normalized_starts_clean |].
  by apply single_spaced_ends_clean.
Qed.

Lemma normalized_collapse (s : string) : normalized s = true -> Str.collapse_spaces s = s.
Proof.
  intros H. pose proof (normalized_starts_clean s H) as Hs.
  destruct s as [|c s]; [reflexivity |].
  unfold normalized in H. cbn [single_spaced_from starts_clean] in *.
  apply negb_true_iff in Hs. rewrite Hs in H.
  unfold Str.collapse_spaces. cbn [Str.collapse_from]. rewrite Hs.
  by rewrite (collapse_fix s false H).
Qed.

Lemma collapse_normalized (s : string) :
  starts_clean s = true -> ends_clean_from false s = true ->
  normalized (Str.collapse_spaces s) = true.
Proof.
  destruct s as [|c s]; [done |]. cbn [starts_clean ends_clean_from]. intros Hs He.
  apply negb_true_iff in Hs. rewrite Hs in He.
  unfold Str.collapse_spaces. cbn [Str.collapse_from]. rewrite Hs.
  unfold normalized. cbn [single_spaced_from]. rewrite Hs.
  by apply collapse_single_spaced.
Qed.

Lemma get_text_clean (e : element) :
  starts_clean (get_text_stripped " " e) = true
  /\ ends_clean_from false (get_text_stripped " " e) = true.
Proof.
  unfold get_text_stripped. apply join_clean.
  apply Forall_forall. intros p Hp.
  apply list_elem_of_In, filter_In in Hp as [Hp Hne].
  apply in_map_iff in Hp as (x & <- & _).
  destruct (strip_clean x) as [Hs He]. split; [exact Hs |].
  destruct (Str.strip x); [discriminate Hne | exact He].
Qed.

Lemma text_normalized (e : element) : normalized (extract_visible_text e) = true.
Proof. destruct (get_text_clean e) as [Hs He]. by apply collapse_normalized. Qed.

End Normalized.

(** X1.  The normalized visible text of an element is made of words
    separated by single spaces, without white space at either end: stripping
    it or collapsing its white space again changes nothing. *)
Theorem extract_visible_text_normalized (e : element) :
  normalized (extract_visible_text e) = true
  /\ Str.strip (extract_visible_text e) = extract_visible_text e
  /\ Str.collapse_spaces (extract_visible_text e) = extract_visible_text e.
Proof.
  pose proof (text_normalized e) as H.
  split; [exact H |]. split; [by apply normalized_trimmed | by apply normalized_collapse].
Qed.

(** ** What the rows hold *)

Section RowFields.

Lemma text_trimmed (e : element) : trimmed (extract_visible_text e).
Proof. apply normalized_trimmed, text_normalized. Qed.

Lemma or_empty_trimmed (o : option string) :
  (forall s, o = Some s -> trimmed s) -> trimmed (or_empty o).
Proof.
  intros H. destruct o as [s |]; [| reflexivity]. simpl.
  destruct (Str.truthy s); [by apply H | reflexivity].
Qed.

Lemma first_hinted_text_trimmed (hints : list string) (ok : string -> bool)
    (node : element) (s : string) :
  first_hinted_text hints ok node = Some s -> trimmed s.
Proof.
  unfold first_hinted_text. destruct (List.find _ _) as [el |]; [| discriminate].
  intros [= <-]. apply text_trimmed.
Qed.

Lemma choose_location_trimmed (node : element) (s : string) :
  choose_location node = Some s -> trimmed s.
Proof.
  unfold choose_location.
  destruct (first_hinted_text LOCATION_HINTS at_least_two node) as [txt |] eqn:H1.
  - intros [= <-]. by apply first_hinted_text_trimmed in H1.
  - unfold location_in_text. destruct (Re.search _ _); [| discriminate].
    intros [= <-]. apply strip_trimmed.
Qed.

Lemma choose_experience_trimmed (node : element) (s : string) :
  choose_experience node = Some s -> trimmed s.
Proof.
  unfold choose_experience, experience_in_text.
  destruct (Re.search _ _).
  - intros [= <-]. apply strip_trimmed.
  - apply first_hinted_text_trimmed.
Qed.

Lemma container_row_trimmed (soup : node) (c : element) (r : JobRecord) :
  container_row soup c = Some r ->
  trimmed (Title r) /\ trimmed (Company r) /\ trimmed (Location r) /\ trimmed (Experience r).
Proof.
  unfold container_row. destruct (choose_title c) as [t |]; [| discriminate].
  destruct (both_empty _ _); [discriminate |]. intros [= <-]. simpl.
  split; [apply text_trimmed |].
  split; [apply or_empty_trimmed, first_hinted_text_trimmed |].
  split; [apply or_empty_trimmed, choose_location_trimmed
         | apply or_empty_trimmed, choose_experience_trimmed].
Qed.

Lemma fallback_row_trimmed (a : element) (r : JobRecord) :
  fallback_row a = Some r ->
  trimmed (Title r) /\ trimmed (Company r) /\ trimmed (Location r) /\ trimmed (Experience r).
Proof.
  rewrite fallback_row_qualifies. destruct (anchor_qualifies a); [| discriminate].
  intros [= <-]. simpl. split; [apply text_trimmed | by repeat split].
Qed.

(** A row of the output comes from an anchor of the fallback scan or from a
    container. *)
Lemma extract_jobs_origin (soup : node) (r : JobRecord) :
  r ∈ extract_jobs soup ->
  (exists a, fallback_row a = Some r) \/ (exists c, container_row soup c = Some r).
Proof.
  unfold extract_jobs.
  destruct (find_job_containers ([], soup)) as [|c cs]; intros Hr; apply dedupe_jobs_elem in Hr.
  - left. rewrite fallback_rows_omap in Hr.
    apply list_elem_of_omap in Hr as (a & _ & Ha). by exists a.
  - right. rewrite container_rows_omap in Hr.
    apply list_elem_of_omap in Hr as (c' & _ & Hc). by exists c'.
Qed.

Lemma lstrip_slash_fix (url : string) :
  Str.startswith url "/" = false -> Str.lstrip_by is_slash url = url.
Proof.
  destruct url as [|c url]; [reflexivity |].
  cbn [Str.startswith Str.lstrip_by]. rewrite andb_true_r.
  unfold is_slash. rewrite Ascii.eqb_sym. by intros ->.
Qed.

Lemma absolutize_scheme (url : string) :
  Str.truthy url = true ->
  Str.startswith (absolutize url) "http://" || Str.startswith (absolutize url) "https://" = true.
Proof.
  intros Hne. unfold absolutize. rewrite Hne. cbn [negb].
  destruct (Str.startswith url "http://" || Str.startswith url "https://") eqn:Habs;
    [exact Habs |].
  destruct (Str.startswith url "//") eqn:Hpr.
  - apply orb_true_iff. right. simpl. exact Hpr.
  - destruct (Str.startswith url "/"); reflexivity.
Qed.

End RowFields.

(** X2.  The four text fields of every row that the pipeline returns are
    trimmed: Title, Company, Location and Experience have no white space at
    either end. *)
Theorem extract_jobs_fields_trimmed (soup : node) (r : JobRecord) :
  r ∈ extract_jobs soup ->
  Str.strip (Title r) = Title r
  /\ Str.strip (Company r) = Company r
  /\ Str.strip (Location r) = Location r
  /\ Str.strip (Experience r) = Experience r.
Proof.
  intros Hr. destruct (extract_jobs_origin soup r Hr) as [[a Ha] | [c Hc]].
  - by apply fallback_row_trimmed with a.
  - by apply container_row_trimmed with soup c.
Qed.

Lemma extract_jobs_fields_trimmed_witness :
  Str.strip "Senior Analyst" = "Senior Analyst"
  /\ Str.strip "Acme Corp" = "Acme Corp"
  /\ Str.strip "Mumbai" = "Mumbai"
  /\ Str.strip "3-5 years" = "3-5 years".
Proof.
  apply (extract_jobs_fields_trimmed sample_page
           {| Title := "Senior Analyst"; Company := "Acme Corp"; Location := "Mumbai";
              Experience := "3-5 years"; Link := "https://www.iimjobs.com/j/123" |}).
  vm_compute. left.
Defined.

(** X3.  The URL normalizer only ever prepends: its result is the input
    after one of four prefixes (nothing, "https:", the site origin, the site
    origin and a slash), so the input is never altered; the result is empty
    only for the empty input, and otherwise starts with "http://" or
    "https://". *)
Theorem absolutize_prepends (url : string) :
  (exists prefix,
     prefix ∈ [""; "https:"; "https://www.iimjobs.com"; "https://www.iimjobs.com/"]
     /\ absolutize url = prefix +:+ url)
  /\ (absolutize url = "" <-> url = "")
  /\ (url <> "" ->
      Str.startswith (absolutize url) "http://" = true
      \/ Str.startswith (absolutize url) "https://" = true).
Proof.
  split; [| split].
  - unfold absolutize.
    destruct (negb (Str.truthy url)); [exists ""; split; [by left | reflexivity] |].
    destruct (Str.startswith url "http://" || Str.startswith url "https://");
      [exists ""; split; [by left | reflexivity] |].
    destruct (Str.startswith url "//");
      [exists "https:"; split; [by right; left | reflexivity] |].
    destruct (Str.startswith url "/") eqn:Hs.
    + exists "https://www.iimjobs.com". split; [by right; right; left | reflexivity].
    + exists "https://www.iimjobs.com/". split; [by right; right; right; left |].
      by rewrite lstrip_slash_fix.
  - split; [| by intros ->].
    intros Hempty. destruct url as [|c url]; [reflexivity |].
    pose proof (absolutize_truthy (String c url) eq_refl) as Hne.
    rewrite Hempty in Hne. discriminate Hne.
  - intros Hne. apply orb_true_iff, absolutize_scheme. by apply truthy_nonempty.
Qed.

Lemma absolutize_prepends_witness :
  Str.startswith (absolutize "j/123") "http://" = true
  \/ Str.startswith (absolutize "j/123") "https://" = true.
Proof.
  apply (proj2 (proj2 (absolutize_prepends "j/123"))). discriminate.
Defined.

(** X4.  The Link of every row that the pipeline returns is empty or an
    absolute URL: it starts with "http://" or "https://". *)
Theorem extract_jobs_link_absolute (soup : node) (r : JobRecord) :
  r ∈ extract_jobs soup ->
  Link r = ""
  \/ Str.startswith (Link r) "http://" = true
  \/ Str.startswith (Link r) "https://" = true.
Proof.
  intros Hr. destruct (extract_jobs_origin soup r Hr) as [[a Ha] | [c Hc]].
  - right. rewrite fallback_row_qualifies in Ha.
    destruct (anchor_qualifies a) eqn:Hq; [| discriminate Ha].
    injection Ha as <-. simpl.
    by apply orb_true_iff, absolutize_scheme, anchor_qualifies_truthy.
  - unfold container_row in Hc. destruct (choose_title c) as [t |]; [| discriminate].
    destruct (both_empty _ _); [discriminate |]. injection Hc as <-. simpl.
    destruct (Str.truthy (or_empty (choose_link soup t))) eqn:Hne; [| by left].
    right. by apply orb_true_iff, absolutize_scheme.
Qed.

Lemma extract_jobs_link_absolute_witness :
  "https://www.iimjobs.com/jobs/all" = ""
  \/ Str.startswith "https://www.iimjobs.com/jobs/all" "http://" = true
  \/ Str.startswith "https://www.iimjobs.com/jobs/all" "https://" = true.
Proof.
  apply (extract_jobs_link_absolute links_page
           {| Title := ""; Company := ""; Location := ""; Experience := "";
              Link := "https://www.iimjobs.com/jobs/all" |}).
  vm_compute. right. left.
Defined.

(** ** More on keeping first occurrences *)

Section FirstByMore.

Context {A K : Type} `{Countable K} (key : A -> K).

Lemma first_by_app (xs ys : list A) (earlier : list K) :
  first_by key earlier (xs ++ ys)
  = first_by key earlier xs ++ first_by key (earlier ++ (key <$> xs)) ys.
Proof.
  revert earlier. induction xs as [|x xs IH]; intros earlier.
  - simpl. by rewrite app_nil_r.
  - rewrite <- app_comm_cons. cbn [first_by]. rewrite IH, fmap_cons, <- app_assoc.
    change ([key x] ++ (key <$> xs)) with (key x :: (key <$> xs)).
    by destruct (decide (key x ∈ earlier)).
Qed.

(** Items whose key was met before may be left out beforehand. *)
Lemma first_by_filter (xs : list A) (before seen all : list K) :
  (forall k, k ∈ all <-> k ∈ before \/ k ∈ seen) ->
  first_by key all xs
  = first_by key seen (List.filter (fun x => bool_decide (key x ∉ before)) xs).
Proof.
  revert seen all. induction xs as [|x xs IH]; intros seen all Hall; [reflexivity |].
  cbn [first_by List.filter].
  destruct (decide (key x ∈ before)) as [Hb | Hb].
  - rewrite bool_decide_eq_false_2 by tauto.
    rewrite decide_True by (apply Hall; by left).
    apply IH. intros k. rewrite elem_of_app, Hall, list_elem_of_singleton.
    split; [intros [Hk | ->]; tauto | tauto].
  - rewrite bool_decide_eq_true_2 by exact Hb. cbn [first_by].
    assert (Hnext : forall k, k ∈ all ++ [key x] <-> k ∈ before \/ k ∈ seen ++ [key x]).
    { intros k. rewrite !elem_of_app, Hall. tauto. }
    rewrite (IH _ _ Hnext).
    destruct (decide (key x ∈ all)) as [H1 | H1], (decide (key x ∈ seen)) as [H2 | H2];
      try reflexivity; exfalso.
    + apply Hall in H1. tauto.
    + apply H1, Hall. by right.
Qed.

Lemma first_by_keeps_all (xs : list A) :
  first_by key [] xs = xs -> NoDup (key <$> xs).
Proof. intros Heq. rewrite <- Heq. apply (proj1 (first_by_fresh key xs [])). Qed.

End FirstByMore.

(** X5.  The rows the Deduplicator returns have pairwise distinct identity
    keys, and every key of the input is the key of a row of the output: a
    key is never lost, only repeated rows are.  The rows that the pipeline
    returns have pairwise distinct identity keys as well. *)
Theorem dedupe_jobs_distinct_keys (rows : list JobRecord) :
  NoDup (row_key <$> dedupe_jobs rows)
  /\ (forall r, r ∈ rows -> exists r', r' ∈ dedupe_jobs rows /\ row_key r' = row_key r)
  /\ (forall soup, NoDup (row_key <$> extract_jobs soup)).
Proof.
  split; [| split].
  - rewrite dedupe_jobs_first_by. apply (proj1 (first_by_fresh row_key rows [])).
  - intros r Hr. rewrite dedupe_jobs_first_by.
    apply first_by_covers; [exact Hr | intros Hk; by apply elem_of_nil in Hk].
  - intros soup. unfold extract_jobs.
    destruct (find_job_containers ([], soup)); rewrite dedupe_jobs_first_by;
      apply (proj1 (first_by_fresh row_key _ [])).
Qed.

Lemma dedupe_jobs_distinct_keys_witness :
  exists r', r' ∈ dedupe_jobs two_rows
             /\ row_key r' = ("plant manager", "https://www.iimjobs.com/j/2").
Proof.
  apply (proj1 (proj2 (dedupe_jobs_distinct_keys two_rows))
           {| Title := "Plant Manager"; Company := "Globex"; Location := "";
              Experience := ""; Link := "https://www.iimjobs.com/j/2" |}).
  vm_compute. right. left.
Defined.

(** X6.  The Deduplicator returns its input unchanged exactly when the
    identity keys of the input are pairwise distinct. *)
Theorem dedupe_jobs_unchanged_iff (rows : list JobRecord) :
  dedupe_jobs rows = rows <-> NoDup (row_key <$> rows).
Proof.
  rewrite dedupe_jobs_first_by. split.
  - apply first_by_keeps_all.
  - intros Hnd. apply first_by_distinct; [exact Hnd |].
    intros x _ Hx. by apply elem_of_nil in Hx.
Qed.

Lemma dedupe_jobs_unchanged_iff_witness : NoDup (row_key <$> two_rows).
Proof. apply (proj1 (dedupe_jobs_unchanged_iff two_rows)). reflexivity. Defined.

(** X7.  Deduplicating two lists one after the other: the result for the
    first list comes first, unchanged by what follows it, and then the result
    for those rows of the second list whose key does not occur in the
    first. *)
Theorem dedupe_jobs_app (rows1 rows2 : list JobRecord) :
  dedupe_jobs (rows1 ++ rows2)
  = dedupe_jobs rows1
    ++ dedupe_jobs
         (List.filter (fun r => bool_decide (row_key r ∉ (row_key <$> rows1))) rows2).
Proof.
  rewrite !dedupe_jobs_first_by, first_by_app. f_equal.
  apply first_by_filter. intros k. simpl.
  split; [by left | intros [Hk | Hk]; [exact Hk | by apply elem_of_nil in Hk]].
Qed.

(** ** Elements below elements *)

Section Below.

Lemma forest_elem (p : list nat) (cs : list node) :
  forall i e, e ∈ forest subtree p i cs ->
  exists k c, cs !! k = Some c /\ e ∈ subtree (p ++ [i + k]) c.
Proof.
  induction cs as [|c cs IH]; intros i e He.
  - by apply elem_of_nil in He.
  - rewrite forest_cons, elem_of_app in He. destruct He as [He | He].
    + exists 0, c. split; [reflexivity | by rewrite Nat.add_0_r].
    + destruct (IH _ _ He) as (k & c' & Hk & He'). exists (S k), c'.
      split; [exact Hk | by rewrite Nat.add_succ_r].
Qed.

Lemma forest_child (p : list nat) (cs : list node) :
  forall i k c e, cs !! k = Some c -> e ∈ subtree (p ++ [i + k]) c ->
  e ∈ forest subtree p i cs.
Proof.
  induction cs as [|c0 cs IH]; intros i k c e Hk He; [done |].
  rewrite forest_cons, elem_of_app. destruct k as [|k].
  - left. injection Hk as ->. by rewrite Nat.add_0_r in He.
  - right. apply (IH (S i) k c); [exact Hk | by rewrite Nat.add_succ_l, <- Nat.add_succ_r].
Qed.

(** What is in the subtree of an element of a subtree is in that subtree. *)
Lemma subtree_trans (n : node) :
  forall p e d, e ∈ subtree p n -> d ∈ subtree e.1 e.2 -> d ∈ subtree p n.
Proof.
  induction n as [s | nm a cs IH] using node_ind_forall; intros p e d He Hd.
  - apply list_elem_of_singleton in He as ->. exact Hd.
  - cbn [subtree] in He. apply elem_of_cons in He as [-> | He]; [exact Hd |].
    cbn [subtree]. right.
    apply forest_elem in He as (k & c & Hk & He).
    apply (forest_child p cs 0 k c); [exact Hk |].
    rewrite Forall_forall in IH. apply (IH c) with e; [| exact He | exact Hd].
    by apply list_elem_of_lookup_2 with k.
Qed.

Lemma descendants_subtree (e d : element) : d ∈ descendants e -> d ∈ subtree e.1 e.2.
Proof. rewrite subtree_unfold. destruct e. by right. Qed.

(** A descendant of a descendant is a descendant. *)
Lemma descendants_trans (r e d : element) :
  e ∈ descendants r -> d ∈ descendants e -> d ∈ descendants r.
Proof.
  unfold descendants at 1 3. destruct r as [p [s | nm a cs]]; simpl;
    [intros He; by apply elem_of_nil in He |].
  intros He Hd. apply forest_elem in He as (k & c & Hk & He).
  apply (forest_child p cs 0 k c); [exact Hk |].
  apply subtree_trans with e; [exact He | by apply descendants_subtree].
Qed.

Lemma head_In {A : Type} (l : list A) (x : A) : head l = Some x -> In x l.
Proof. destruct l; [discriminate | intros [= ->]; by left]. Qed.

Lemma find_all_In (name : string) (e d : element) :
  In d (find_all name e) <-> d ∈ descendants e /\ is_tag name d = true.
Proof. unfold find_all. by rewrite filter_In, list_elem_of_In. Qed.

Lemma find_all_href_In (name : string) (e d : element) :
  In d (find_all_href name e) <->
  d ∈ descendants e /\ is_tag name d = true /\ has_href d = true.
Proof. unfold find_all_href. by rewrite filter_In, list_elem_of_In, andb_true_iff. Qed.

End Below.

(** ** More on the title and the link *)

Section TitleLink.

Lemma title_from_heading_kind (node : element) (hs : list string) (t : element) :
  title_from_heading node hs = Some t ->
  t ∈ descendants node /\ exists h, h ∈ hs /\ is_tag h t = true.
Proof.
  induction hs as [|h hs IH]; [discriminate |]. cbn [title_from_heading].
  assert (Hrest : title_from_heading node hs = Some t ->
                  t ∈ descendants node /\ exists h', h' ∈ h :: hs /\ is_tag h' t = true).
  { intros H. destruct (IH H) as (Hd & h' & Hh' & Ht). split; [exact Hd |].
    exists h'. split; [by right | exact Ht]. }
  destruct (find h node) as [hnode |] eqn:Hfind; [| exact Hrest].
  destruct (has_title_text hnode); [| exact Hrest].
  intros [= <-]. apply head_In, find_all_In in Hfind as [Hd Ht].
  split; [exact Hd |]. exists h. split; [by left | exact Ht].
Qed.

Lemma is_job_href_truthy (href : string) :
  is_job_href (Str.lower href) = true -> Str.truthy href = true.
Proof. by destruct href. Qed.

Lemma has_href_get (e : element) : has_href e = true -> exists href, get_href e = Some href.
Proof. unfold has_href. destruct (get_href e) as [h |]; [by exists h | discriminate]. Qed.

Lemma choose_link_anchor (soup : node) (t : element) (href : string) :
  is_tag "a" t = true -> get_href t = Some href -> choose_link soup t = Some href.
Proof.
  intros Ht Hh. unfold choose_link, has_href. by rewrite Ht, Hh.
Qed.

End TitleLink.

(** X8.  The element that the Title Extractor returns is always a
    descendant of the container, and it is a hyperlink or a heading of level
    1 to 4. *)
Theorem choose_title_kind (node t : element) :
  choose_title node = Some t ->
  t ∈ descendants node
  /\ (is_tag "a" t = true \/ exists h, h ∈ HEADINGS /\ is_tag h t = true).
Proof.
  unfold choose_title.
  destruct (title_from_job_anchor node) as [a |] eqn:H1.
  - intros [= <-]. apply find_some in H1 as [H1 _].
    apply find_all_href_In in H1 as (Hd & Ht & _). split; [exact Hd | by left].
  - destruct (title_from_heading node HEADINGS) as [hnode |] eqn:H2.
    + intros [= <-]. apply title_from_heading_kind in H2 as [Hd Hh].
      split; [exact Hd | by right].
    + intros H3. apply find_some in H3 as [H3 _].
      apply find_all_In in H3 as [Hd Ht]. split; [exact Hd | by left].
Qed.

Lemma choose_title_kind_witness :
  ([0; 1], Tag "h4" no_attrs [NavigableString "Plant Manager"]) ∈ descendants ([0], headed_card)
  /\ (is_tag "a" ([0; 1], Tag "h4" no_attrs [NavigableString "Plant Manager"]) = true
      \/ exists h, h ∈ HEADINGS
                   /\ is_tag h ([0; 1], Tag "h4" no_attrs [NavigableString "Plant Manager"]) = true).
Proof.
  apply (choose_title_kind ([0], headed_card)). reflexivity.
Defined.

(** X9.  When the title element is a hyperlink that has an [href], the Link
    of the row of the container is that very [href], absolutized (and empty
    when the [href] is empty): the link of another anchor is never taken.
    The hyperlink chosen by step 1 always has a non-empty [href]. *)
Theorem container_row_anchor_link (soup : node) (c t : element) (href : string) :
  choose_title c = Some t -> is_tag "a" t = true -> get_href t = Some href ->
  (exists r, container_row soup c = Some r
             /\ Title r = extract_visible_text t
             /\ Link r = if Str.truthy href then absolutize href else "")
  /\ (title_from_job_anchor c = Some t -> Str.truthy href = true).
Proof.
  intros Ht Ha Hh. split.
  - unfold container_row. rewrite Ht, (choose_link_anchor soup t href Ha Hh).
    assert (Hkeep : both_empty (extract_visible_text t) (or_empty (Some href)) = false).
    { unfold both_empty. apply choose_title_text, has_title_text_len in Ht.
      replace (Str.truthy (extract_visible_text t)) with true; [reflexivity |].
      symmetry. apply truthy_len. lia. }
    rewrite Hkeep. eexists. split; [reflexivity |]. split; [reflexivity |].
    cbn [Link]. by rewrite or_empty_some.
  - intros H1. apply find_some in H1 as [_ H1]. rewrite Hh in H1.
    apply andb_true_iff in H1 as [H1 _]. rewrite or_empty_some in H1.
    by apply is_job_href_truthy.
Qed.

Lemma container_row_anchor_link_witness :
  exists r, container_row sample_page ([0], sample_card) = Some r
            /\ Title r = "Senior Analyst"
            /\ Link r = "https://www.iimjobs.com/j/123".
Proof.
  destruct (container_row_anchor_link sample_page ([0], sample_card)
              ([0; 0; 0], Tag "a" (with_href "/j/123") [NavigableString "Senior  Analyst"])
              "/j/123" eq_refl eq_refl eq_refl) as [(r & Hr & Ht & Hl) _].
  exists r. split; [exact Hr |]. split; [exact Ht | exact Hl].
Defined.

(** X10.  The Link Resolver returns the [href] of a hyperlink that is the
    title element itself, or below it, or below its parent; it returns
    nothing exactly when the title element is not a hyperlink with an [href]
    and no hyperlink with an [href] is below it or below its parent. *)
Theorem choose_link_provenance (soup : node) (t : element) :
  (forall href, choose_link soup t = Some href ->
     exists a, is_tag "a" a = true /\ get_href a = Some href
               /\ (a = t \/ a ∈ descendants t
                   \/ exists p, parent soup t = Some p /\ a ∈ descendants p))
  /\ (choose_link soup t = None <->
      is_tag "a" t && has_href t = false
      /\ find_all_href "a" t = []
      /\ (forall p, parent soup t = Some p -> find_all_href "a" p = [])).
Proof.
  assert (Hhead : forall e a, find_href "a" e = Some a ->
            a ∈ descendants e /\ is_tag "a" a = true /\ exists h, get_href a = Some h).
  { intros e a Ha. apply head_In, find_all_href_In in Ha as (Hd & Ht & Hh).
    split; [exact Hd |]. split; [exact Ht | by apply has_href_get]. }
  unfold choose_link. split.
  - intros href.
    destruct (is_tag "a" t && has_href t) eqn:Hself.
    + intros Hh. apply andb_true_iff in Hself as [Ht _]. exists t. by repeat split; [| | left].
    + destruct (find_href "a" t) as [a |] eqn:Hbelow.
      * intros Hh. destruct (Hhead _ _ Hbelow) as (Hd & Ht & _).
        exists a. split; [exact Ht |]. split; [exact Hh | by right; left].
      * destruct (parent soup t) as [p |] eqn:Hp; [| discriminate].
        destruct (find_href "a" p) as [a |] eqn:Hpar; [| discriminate].
        intros Hh. destruct (Hhead _ _ Hpar) as (Hd & Ht & _).
        exists a. split; [exact Ht |]. split; [exact Hh |]. right. right. by exists p.
  - destruct (is_tag "a" t && has_href t) eqn:Hself.
    + apply andb_true_iff in Hself as [_ Hh]. apply has_href_get in Hh as [h Hh].
      rewrite Hh. split; [discriminate | intros [Hf _]; discriminate Hf].
    + unfold find_href.
      destruct (find_all_href "a" t) as [|a l] eqn:Hbelow; simpl.
      * destruct (parent soup t) as [p |]; [| by split; [intros _; repeat split |]].
        destruct (find_all_href "a" p) as [|a l] eqn:Hpar; simpl.
        -- split; [intros _; repeat split; by intros p' [= <-] | reflexivity].
        -- assert (Ha : In a (find_all_href "a" p)) by (rewrite Hpar; by left).
           apply find_all_href_In in Ha as (_ & _ & Hh). apply has_href_get in Hh as [h Hh].
           rewrite Hh. split; [discriminate |].
           intros (_ & _ & Hnone). specialize (Hnone p eq_refl). congruence.
      * assert (Ha : In a (find_all_href "a" t)) by (rewrite Hbelow; by left).
        apply find_all_href_In in Ha as (_ & _ & Hh). apply has_href_get in Hh as [h Hh].
        rewrite Hh. split; [discriminate | intros (_ & Hnone & _); discriminate Hnone].
Qed.

Lemma choose_link_provenance_witness :
  exists a, is_tag "a" a = true /\ get_href a = Some "/view/77"
            /\ (a = ([0; 0], Tag "h3" no_attrs [NavigableString "Plant Manager"])
                \/ a ∈ descendants ([0; 0], Tag "h3" no_attrs [NavigableString "Plant Manager"])
                \/ exists p,
                     parent (Tag "[document]" no_attrs [sibling_link_card])
                            ([0; 0], Tag "h3" no_attrs [NavigableString "Plant Manager"])
                     = Some p
                     /\ a ∈ descendants p).
Proof.
  apply (proj1 (choose_link_provenance (Tag "[document]" no_attrs [sibling_link_card])
                  ([0; 0], Tag "h3" no_attrs [NavigableString "Plant Manager"]))).
  reflexivity.
Defined.

(** ** Pages without hyperlinks, and the company *)

Section Edges.

Lemma filter_none {A : Type} (f : A -> bool) (l : list A) :
  (forall x, In x l -> f x = false) -> List.filter f l = [].
Proof.
  induction l as [|x l IH]; intros H; [reflexivity |]. simpl.
  rewrite (H x) by (by left). apply IH. intros y Hy. apply H. by right.
Qed.

Lemma flat_map_none {A B : Type} (f : A -> list B) (l : list A) :
  (forall x, In x l -> f x = []) -> flat_map f l = [].
Proof.
  induction l as [|x l IH]; intros H; [reflexivity |]. simpl.
  rewrite (H x) by (by left). apply IH. intros y Hy. apply H. by right.
Qed.

(** An element of a page without hyperlinks holds no hyperlink either. *)
Lemma no_hyperlink_below (soup e : element) :
  find_all "a" soup = [] -> e ∈ descendants soup -> find "a" e = None.
Proof.
  intros Hnone He. unfold find.
  destruct (find_all "a" e) as [|a l] eqn:Ha; [reflexivity |].
  assert (Hin : In a (find_all "a" e)) by (rewrite Ha; by left).
  apply find_all_In in Hin as [Hd Ht].
  assert (Hroot : In a (find_all "a" soup))
    by (apply find_all_In; split; [by apply descendants_trans with e | exact Ht]).
  rewrite Hnone in Hroot. destruct Hroot.
Qed.

Lemma find_split {A : Type} (f : A -> bool) (l : list A) (x : A) :
  List.find f l = Some x ->
  exists l1 l2, l = l1 ++ x :: l2 /\ f x = true /\ forall y, In y l1 -> f y = false.
Proof.
  induction l as [|z l IH]; [discriminate |]. simpl.
  destruct (f z) eqn:Hz.
  - intros [= ->]. exists [], l. by repeat split.
  - intros Hfind. destruct (IH Hfind) as (l1 & l2 & -> & Hx & Hl1).
    exists (z :: l1), l2. split; [reflexivity |]. split; [exact Hx |].
    intros y [-> | Hy]; [exact Hz | by apply Hl1].
Qed.

Lemma find_none_iff {A : Type} (f : A -> bool) (l : list A) :
  List.find f l = None <-> forall y, In y l -> f y = false.
Proof.
  split; [apply find_none |].
  induction l as [|z l IH]; intros H; [reflexivity |]. simpl.
  rewrite (H z) by (by left). apply IH. intros y Hy. apply H. by right.
Qed.

Lemma at_least_two_len (txt : string) : at_least_two txt = true <-> 2 <= Str.len txt.
Proof.
  unfold at_least_two. rewrite andb_true_iff, Nat.leb_le, truthy_len. lia.
Qed.

Lemma COMPANY_HINTS_plain : forallb plain_hint COMPANY_HINTS = true.
Proof. reflexivity. Qed.

End Edges.

(** X11.  A document without any hyperlink element yields no row, whatever
    else it holds: no element qualifies as a container, and the fallback scan
    has nothing to look at. *)
Theorem extract_jobs_no_hyperlink (soup : node) :
  find_all "a" ([], soup) = [] -> extract_jobs soup = [].
Proof.
  intros Hnone.
  assert (Hcand : candidates ([], soup) = []).
  { unfold candidates. apply flat_map_none. intros tag _.
    apply filter_none. intros e He. apply find_all_In in He as [He _].
    unfold is_candidate. rewrite (no_hyperlink_below ([], soup) e Hnone He).
    apply andb_false_r. }
  assert (Hhref : find_all_href "a" ([], soup) = []).
  { unfold find_all_href. apply filter_none. intros a Ha.
    destruct (is_tag "a" a) eqn:Ht; [| reflexivity].
    assert (Hin : In a (find_all "a" ([], soup)))
      by (apply find_all_In; split; [by apply list_elem_of_In | exact Ht]).
    rewrite Hnone in Hin. destruct Hin. }
  unfold extract_jobs, find_job_containers. rewrite Hcand. simpl.
  unfold fallback_rows. rewrite Hhref. reflexivity.
Qed.

Lemma extract_jobs_no_hyperlink_witness : extract_jobs linkless_page = [].
Proof. apply extract_jobs_no_hyperlink. reflexivity. Defined.

(** X12.  The Company Extractor returns the normalized visible text of the
    first descendant tag, in document order, one of whose class tokens
    contains a company hint and whose text has at least two characters; it
    returns nothing exactly when every descendant tag with such a class
    token has a text shorter than two characters. *)
Theorem choose_company_first_hinted (node : element) :
  (forall txt, choose_company node = Some txt ->
     exists before el after,
       find_all_tags node = before ++ el :: after
       /\ existsb (token_has_hint COMPANY_HINTS) (class_tokens el) = true
       /\ txt = extract_visible_text el
       /\ 2 <= Str.len txt
       /\ forall x, x ∈ before ->
            existsb (token_has_hint COMPANY_HINTS) (class_tokens x) = true ->
            Str.len (extract_visible_text x) < 2)
  /\ (choose_company node = None <->
      forall el, el ∈ find_all_tags node ->
        existsb (token_has_hint COMPANY_HINTS) (class_tokens el) = true ->
        Str.len (extract_visible_text el) < 2).
Proof.
  unfold choose_company, first_hinted_text. fold COMPANY_HINTS.
  assert (Hpred : forall el,
            has_class_like el COMPANY_HINTS && at_least_two (extract_visible_text el) = false
            <-> (existsb (token_has_hint COMPANY_HINTS) (class_tokens el) = true ->
                 Str.len (extract_visible_text el) < 2)).
  { intros el. rewrite has_class_like_tokens by apply COMPANY_HINTS_plain.
    destruct (existsb _ _); cbn [andb].
    - rewrite <- not_true_iff_false, at_least_two_len. split; [intros H _; lia | intros H; specialize (H eq_refl); lia].
    - split; [discriminate | reflexivity]. }
  split.
  - intros txt Hsome.
    destruct (List.find _ _) as [el |] eqn:Hfind; [| discriminate].
    injection Hsome as <-.
    apply find_split in Hfind as (before & after & Heq & Hel & Hbefore).
    apply andb_true_iff in Hel as [Hhint Hlen].
    rewrite has_class_like_tokens in Hhint by apply COMPANY_HINTS_plain.
    exists before, el, after. split; [exact Heq |]. split; [exact Hhint |].
    split; [reflexivity |]. split; [by apply at_least_two_len |].
    intros x Hx. apply Hpred, Hbefore. by apply list_elem_of_In.
  - destruct (List.find _ _) as [el |] eqn:Hfind.
    + split; [discriminate |]. intros Hall. exfalso.
      apply find_some in Hfind as [Hin Hel].
      assert (Hfalse : has_class_like el COMPANY_HINTS
                       && at_least_two (extract_visible_text el) = false)
        by (apply Hpred, Hall; by apply list_elem_of_In).
      congruence.
    + split; [| reflexivity]. intros _ el Hel.
      apply Hpred. apply (proj1 (find_none_iff _ _) Hfind). by apply list_elem_of_In.
Qed.

Lemma choose_company_first_hinted_witness :
  exists before el after,
    find_all_tags ([0], sample_card) = before ++ el :: after
    /\ existsb (token_has_hint COMPANY_HINTS) (class_tokens el) = true
    /\ "Acme Corp" = extract_visible_text el
    /\ 2 <= Str.len "Acme Corp"
    /\ forall x, x ∈ before ->
         existsb (token_has_hint COMPANY_HINTS) (class_tokens x) = true ->
         Str.len (extract_visible_text x) < 2.
Proof.
  apply (proj1 (choose_company_first_hinted ([0], sample_card))). reflexivity.
Defined.

(** ** The experience pattern *)

Section ExperiencePattern.

(** A match reads a piece of the text it starts in. *)
Lemma matches_span (r : Re.regex) (st st' : Re.mstate) :
  Re.matches r st st' -> exists w, Re.rest st = w +:+ Re.rest st'.
Proof.
  induction 1 as [ st | p st c s' Hrest Hp | r1 r2 st st1 st2 _ [w1 H1] _ [w2 H2]
                 | r1 r2 st st' _ IH | r1 r2 st st' _ IH | p st
                 | p st c s' st' Hrest Hp _ [w IH] | r st st' _ IH | r st
                 | n r st st' _ IH | st Hb ]; try exact IH; try (by exists "").
  - exists (String c ""). exact Hrest.
  - exists (w1 +:+ w2). by rewrite H1, H2, append_assoc.
  - exists (String c w). rewrite Hrest. simpl in IH. by rewrite IH.
Qed.

Lemma matches_opt_chr_inv (p : ascii -> bool) (st st' : Re.mstate) :
  Re.matches (Re.Opt (Re.Chr p)) st st' ->
  exists w, Re.reads st w st' /\ (w = "" \/ exists c, w = String c "" /\ p c = true).
Proof.
  inversion 1 as [| | | | | | | r0 st0 st0' Hm | r0 st0 | |]; subst.
  - apply matches_chr_inv in Hm as (c & Hr & Hp). exists (String c "").
    split; [exact Hr | right; by exists c].
  - exists "". split; [apply reads_nil | by left].
Qed.

Lemma lower_keeps_space (c : ascii) : Str.is_space (Str.lower_char c) = Str.is_space c.
Proof. destruct c as [[] [] [] [] [] [] [] []]; reflexivity. Qed.

Lemma digit_not_space (c : ascii) : Re.is_digit c = true -> Str.is_space c = false.
Proof. destruct c as [[] [] [] [] [] [] [] []]; vm_compute; congruence. Qed.

Lemma lower_letter_not_space (c x : ascii) :
  Str.lower_char c = x -> Str.is_space x = false -> Str.is_space c = false.
Proof. intros <-. by rewrite lower_keeps_space. Qed.

(** The text of the second group of the experience pattern. *)
Lemma experience_range_shape (st st' : Re.mstate) :
  Re.matches
    (Re.cat [ Re.plus Re.is_digit; Re.Opt (Re.chr "+"); Re.Star Str.is_space;
              Re.Opt (Re.chr "-"); Re.Star Str.is_space; Re.Star Re.is_digit;
              Re.Star Str.is_space; Re.word_i "year"; Re.Opt (Re.chr_i "s") ]) st st' ->
  exists d body y o,
    Re.reads st (String d body +:+ y +:+ o) st'
    /\ Re.is_digit d = true
    /\ Str.lower y = "year"
    /\ (o = "" \/ exists c, o = String c "" /\ Str.lower_char c = "s"%char).
Proof.
  cbn [Re.cat]. unfold Re.plus. intros Hm.
  apply matches_seq_inv in Hm as (s1 & Hd & Hm).
  apply matches_seq_inv in Hd as (s0 & Hd0 & Hd1).
  apply matches_chr_inv in Hd0 as (d & Rd0 & Hdigit).
  apply matches_star_inv in Hd1 as (w1 & Rd1 & _).
  apply matches_seq_inv in Hm as (s2 & Hplus & Hm).
  apply matches_opt_chr_inv in Hplus as (o1 & Ro1 & _).
  apply matches_seq_inv in Hm as (s3 & Hws1 & Hm).
  apply matches_star_inv in Hws1 as (ws1 & Rws1 & _).
  apply matches_seq_inv in Hm as (s4 & Hdash & Hm).
  apply matches_opt_chr_inv in Hdash as (o2 & Ro2 & _).
  apply matches_seq_inv in Hm as (s5 & Hws2 & Hm).
  apply matches_star_inv in Hws2 as (ws2 & Rws2 & _).
  apply matches_seq_inv in Hm as (s6 & Hd2 & Hm).
  apply matches_star_inv in Hd2 as (w2 & Rd2 & _).
  apply matches_seq_inv in Hm as (s7 & Hws3 & Hm).
  apply matches_star_inv in Hws3 as (ws3 & Rws3 & _).
  apply matches_seq_inv in Hm as (s8 & Hy & Ho).
  apply (matches_word_i_inv "year") in Hy as (y & Ry & Hlow).
  apply matches_opt_chr_inv in Ho as (o & Ro & Hos).
  pose proof (reads_trans _ _ _ _ _ Rd0 Rd1) as R.
  pose proof (reads_trans _ _ _ _ _ R Ro1) as R1. clear R.
  pose proof (reads_trans _ _ _ _ _ R1 Rws1) as R2. clear R1.
  pose proof (reads_trans _ _ _ _ _ R2 Ro2) as R3. clear R2.
  pose proof (reads_trans _ _ _ _ _ R3 Rws2) as R4. clear R3.
  pose proof (reads_trans _ _ _ _ _ R4 Rd2) as R5. clear R4.
  pose proof (reads_trans _ _ _ _ _ R5 Rws3) as R6. clear R5.
  pose proof (reads_trans _ _ _ _ _ R6 Ry) as R7. clear R6.
  pose proof (reads_trans _ _ _ _ _ R7 Ro) as R8. clear R7.
  rewrite !append_cons in R8. change ("" +:+ w1) with w1 in R8.
  rewrite (append_assoc _ y o) in R8.
  exists d, ((((((w1 +:+ o1) +:+ ws1) +:+ o2) +:+ ws2) +:+ w2) +:+ ws3), y, o.
  split; [exact R8 |]. split; [exact Hdigit |]. split; [exact Hlow |].
  destruct Hos as [-> | (c & -> & Hc)]; [by left | right].
  exists c. split; [reflexivity | by apply Ascii.eqb_eq].
Qed.

Lemma year_word_clean (b y o : string) (f : bool) :
  Str.lower y = "year" ->
  (o = "" \/ exists c, o = String c "" /\ Str.lower_char c = "s"%char) ->
  ends_clean_from f (b +:+ y +:+ o) = true
  /\ exists body, Str.lower (b +:+ y +:+ o) = body +:+ "year"
                  \/ Str.lower (b +:+ y +:+ o) = body +:+ "years".
Proof.
  intros Hy Ho. split.
  - destruct y as [|y1 [|y2 [|y3 [|y4 [|y5 y]]]]]; try discriminate Hy.
    cbn [Str.lower] in Hy. injection Hy as _ _ _ Hr.
    assert (Hr' : Str.is_space y4 = false) by (by apply lower_letter_not_space with "r"%char).
    rewrite !append_cons. change ("" +:+ o) with o. rewrite ends_clean_append.
    cbn [ends_clean_from]. destruct Ho as [-> | (c & -> & Hc)].
    + cbn. by rewrite Hr'.
    + cbn. by rewrite (lower_letter_not_space c "s"%char Hc).
  - exists (Str.lower b). rewrite !lower_append, Hy.
    destruct Ho as [-> | (c & -> & Hc)].
    + by left.
    + right. cbn [Str.lower]. by rewrite Hc.
Qed.

Lemma experience_match_shape (st st' : Re.mstate) :
  Re.matches EXPERIENCE_RE st st' ->
  exists head d body y o,
    Re.rest st = head +:+ (String d body +:+ y +:+ o) +:+ Re.rest st'
    /\ Re.group 2 st' = String d body +:+ y +:+ o
    /\ Re.is_digit d = true
    /\ Str.lower y = "year"
    /\ (o = "" \/ exists c, o = String c "" /\ Str.lower_char c = "s"%char).
Proof.
  unfold EXPERIENCE_RE.
  change (Re.cat (?a :: ?b :: ?c :: ?d :: ?e :: [?g]))
    with (Re.Seq a (Re.Seq b (Re.Seq c (Re.Seq d (Re.Seq e g))))).
  intros Hm.
  apply matches_seq_inv in Hm as (s0 & H0 & Hm). apply matches_span in H0 as [w0 E0].
  apply matches_seq_inv in Hm as (s1 & H1 & Hm). apply matches_span in H1 as [w1 E1].
  apply matches_seq_inv in Hm as (s2 & H2 & Hm). apply matches_span in H2 as [w2 E2].
  apply matches_seq_inv in Hm as (s3 & H3 & Hm). apply matches_span in H3 as [w3 E3].
  apply matches_seq_inv in Hm as (s4 & H4 & Hg). apply matches_span in H4 as [w4 E4].
  apply matches_group_inv in Hg as (s5 & Hbody & Hrest & Hpos & Hgr).
  apply experience_range_shape in Hbody as (d & body & y & o & (Er & Ep & _) & Hd & Hy & Ho).
  exists ((((w0 +:+ w1) +:+ w2) +:+ w3) +:+ w4), d, body, y, o.
  split; [| split; [| by repeat split]].
  - rewrite E0, E1, E2, E3, E4, Er, Hrest, !append_assoc. reflexivity.
  - unfold Re.group. rewrite Hgr. cbn [Re.lookup_group Nat.eqb].
    rewrite Er, Ep.
    replace (Re.pos s4 + _ - Re.pos s4) with (String.length (String d body +:+ y +:+ o)) by lia.
    apply substring_prefix.
Qed.

End ExperiencePattern.

(** X13.  What the Experience Extractor takes from the text of the
    container by its pattern is a piece of that text, unchanged and without
    white space at either end, that starts with a digit and ends with the
    word "year" in any case followed by at most one more character. *)
Theorem experience_in_text_shape (text s : string) :
  experience_in_text text = Some s ->
  (exists pre post, text = pre +:+ s +:+ post)
  /\ (exists d rest, s = String d rest /\ Re.is_digit d = true)
  /\ Str.strip s = s
  /\ (exists body y tail,
        s = body +:+ y +:+ tail /\ Str.lower y = "year" /\ String.length tail <= 1).
Proof.
  unfold experience_in_text, Re.search.
  destruct (Re.search_from EXPERIENCE_RE None 0 text) as [m |] eqn:Hsearch; [| discriminate].
  intros [= <-].
  apply search_from_sound in Hsearch as (pre & s' & -> & Hrun).
  apply run_sound in Hrun as (st' & Hm & [= ->]).
  apply experience_match_shape in Hm as (head & d & body & y & o & Hrest & Hg & Hd & Hy & Ho).
  simpl in Hrest. rewrite Hg.
  destruct (year_word_clean (String d body) y o true Hy Ho) as [Hend _].
  assert (Hfix : Str.strip (String d body +:+ y +:+ o) = String d body +:+ y +:+ o).
  { apply strip_fix with true; [| exact Hend].
    rewrite append_cons. cbn [starts_clean]. by rewrite (digit_not_space d Hd). }
  rewrite Hfix. split; [| split; [| split; [exact Hfix |]]].
  - exists (pre +:+ head), (Re.rest m). by rewrite Hrest, !append_assoc.
  - rewrite append_cons. by exists d, (body +:+ y +:+ o).
  - exists (String d body), y, o. split; [reflexivity |]. split; [exact Hy |].
    destruct Ho as [-> | (c & -> & _)]; simpl; lia.
Qed.

Lemma experience_in_text_shape_witness :
  (exists pre post, "Pune | Exp: 3-5 Years | Acme" = pre +:+ "3-5 Years" +:+ post)
  /\ (exists d rest, "3-5 Years" = String d rest /\ Re.is_digit d = true)
  /\ Str.strip "3-5 Years" = "3-5 Years"
  /\ (exists body y tail,
        "3-5 Years" = body +:+ y +:+ tail /\ Str.lower y = "year"
        /\ String.length tail <= 1).
Proof.
  apply (experience_in_text_shape "Pune | Exp: 3-5 Years | Acme" "3-5 Years"). reflexivity.
Defined.

(** ** Pieces of the text, parents, and the number of rows *)

Section Pieces.

Lemma lstrip_suffix (p : ascii -> bool) (s : string) :
  exists a, s = a +:+ Str.lstrip_by p s.
Proof.
  induction s as [|c s [a IH]]; [by exists "" |]. cbn [Str.lstrip_by].
  destruct (p c); [| by exists ""].
  exists (String c a). by rewrite append_cons, <- IH.
Qed.

Lemma rstrip_prefix (p : ascii -> bool) (s : string) :
  exists b, s = Str.rstrip_by p s +:+ b.
Proof.
  induction s as [|c s [b IH]]; [by exists "" |]. cbn [Str.rstrip_by].
  destruct (Str.rstrip_by p s) as [|d r].
  - destruct (p c); [by exists (String c s) |].
    exists s. reflexivity.
  - exists b. by rewrite append_cons, <- IH.
Qed.

(** The stripped text is a piece of the text. *)
Lemma strip_piece (s : string) : exists a b, s = a +:+ Str.strip s +:+ b.
Proof.
  unfold Str.strip. destruct (lstrip_suffix Str.is_space s) as [a Ha].
  destruct (rstrip_prefix Str.is_space (Str.lstrip_by Str.is_space s)) as [b Hb].
  exists a, b. by rewrite <- Hb.
Qed.

Lemma node_at_subtree (rel : list nat) :
  forall n p m, node_at n rel = Some m -> (p ++ rel, m) ∈ subtree p n.
Proof.
  induction rel as [|i rel IH]; intros n p m Hat.
  - injection Hat as ->. rewrite app_nil_r. destruct m; by left.
  - destruct n as [s | nm a cs]; [discriminate |]. cbn [node_at] in Hat.
    destruct (cs !! i) as [c |] eqn:Hi; [| discriminate].
    cbn [subtree]. right. apply (forest_child p cs 0 i c); [exact Hi |].
    replace (p ++ i :: rel) with ((p ++ [0 + i]) ++ rel) by (by rewrite <- app_assoc).
    by apply IH.
Qed.

Lemma node_at_snoc (pp : list nat) (k : nat) :
  forall n c, node_at n (pp ++ [k]) = Some c ->
  exists nm a cs, node_at n pp = Some (Tag nm a cs) /\ cs !! k = Some c.
Proof.
  induction pp as [|i pp IH]; intros n c Hat.
  - destruct n as [s | nm a cs]; [discriminate |]. simpl in Hat.
    destruct (cs !! k) as [c' |] eqn:Hk; [| discriminate].
    injection Hat as ->. by exists nm, a, cs.
  - destruct n as [s | nm a cs]; [discriminate |]. simpl in Hat. simpl.
    destruct (cs !! i) as [c' |]; [| discriminate]. by apply IH.
Qed.

Lemma omap_length_le {A B : Type} (f : A -> option B) (l : list A) :
  length (omap f l) <= length l.
Proof.
  induction l as [|x l IH]; [reflexivity |].
  change (omap f (x :: l))
    with (match f x with Some y => y :: omap f l | None => omap f l end).
  destruct (f x); simpl; lia.
Qed.

End Pieces.

(** X14.  What the Location Extractor takes from the text of the container
    is a piece of that text, trimmed, and it holds no "|" and no line
    feed. *)
Theorem location_in_text_piece (text s : string) :
  location_in_text text = Some s ->
  (exists pre post, text = pre +:+ s +:+ post)
  /\ Str.all_chars Re.not_bar_nl s = true
  /\ Str.strip s = s.
Proof.
  intros Hloc. apply location_in_text_sound in Hloc
    as (pre & marker & ws1 & sep & ws2 & run & post & (-> & _ & _ & _ & _ & _ & _ & Hrun) & ->).
  destruct (strip_piece run) as (a & b & Hab).
  split; [| split; [| apply strip_trimmed]].
  - exists (pre +:+ marker +:+ ws1 +:+ String sep (ws2 +:+ a)), (b +:+ post).
    rewrite Hab at 1. rewrite !append_assoc, !append_cons, !append_assoc. reflexivity.
  - rewrite Hab, !all_chars_append in Hrun.
    apply andb_true_iff in Hrun as [_ Hrun]. by apply andb_true_iff in Hrun as [Hrun _].
Qed.

Lemma location_in_text_piece_witness :
  (exists pre post, "Location: Mumbai, India | Exp 3 years" = pre +:+ "Mumbai, India" +:+ post)
  /\ Str.all_chars Re.not_bar_nl "Mumbai, India" = true
  /\ Str.strip "Mumbai, India" = "Mumbai, India".
Proof.
  apply (location_in_text_piece "Location: Mumbai, India | Exp 3 years" "Mumbai, India").
  reflexivity.
Defined.

(** X15.  Every element of a document below its root has a parent: a tag
    of the document (the root or an element below it) that has the element
    among its descendants.  So the parent that the Link Resolver turns to is
    always there for a title element, and it is always a tag. *)
Theorem parent_of_descendant (soup : node) (t : element) :
  t ∈ descendants ([], soup) ->
  exists p, parent soup t = Some p
            /\ is_any_tag p = true
            /\ t ∈ descendants p
            /\ (p = ([], soup) \/ p ∈ descendants ([], soup)).
Proof.
  intros Ht. pose proof (descendants_node_at soup t Ht) as Hat.
  assert (Hpath : t.1 <> []).
  { unfold descendants in Ht. simpl in Ht. destruct soup as [s | nm a cs]; [by apply elem_of_nil in Ht |].
    apply forest_extends in Ht as (j & rel & _ & ->). discriminate. }
  destruct (exists_last Hpath) as (pp & k & Hsplit).
  rewrite Hsplit in Hat. apply node_at_snoc in Hat as (nm & a & cs & Hpp & Hk).
  exists (pp, Tag nm a cs).
  assert (Hrem : removelast t.1 = pp) by (rewrite Hsplit; apply removelast_last).
  split; [| split; [reflexivity | split]].
  - unfold parent. rewrite Hrem. destruct t.1 as [|i rest]; [done |]. by rewrite Hpp.
  - unfold descendants. simpl. apply (forest_child pp cs 0 k t.2); [exact Hk |].
    simpl. rewrite <- Hsplit. destruct t as [tp tn]. simpl. destruct tn; by left.
  - pose proof (node_at_subtree pp soup [] _ Hpp) as Hin. simpl in Hin.
    rewrite subtree_unfold in Hin. apply elem_of_cons in Hin as [Heq | Hin]; [by left | by right].
Qed.

Lemma parent_of_descendant_witness :
  exists p, parent sample_page ([0; 0], Tag "h2" no_attrs
                                  [ Tag "a" (with_href "/j/123") [NavigableString "Senior  Analyst"] ])
            = Some p
            /\ is_any_tag p = true
            /\ ([0; 0], Tag "h2" no_attrs
                  [ Tag "a" (with_href "/j/123") [NavigableString "Senior  Analyst"] ])
               ∈ descendants p
            /\ (p = ([], sample_page) \/ p ∈ descendants ([], sample_page)).
Proof.
  apply (parent_of_descendant sample_page). vm_compute. right. left.
Defined.

(** X16.  The rows that the pipeline returns are, in the same order, rows of
    the containers in the order of the Container Locator, at most one per
    container; when there is no container they are rows of the hyperlinks
    with an [href] in document order, at most one per hyperlink. *)
Theorem extract_jobs_rows_in_order (soup : node) :
  (find_job_containers ([], soup) <> [] ->
   sublist (extract_jobs soup)
           (omap (container_row soup) (find_job_containers ([], soup)))
   /\ length (extract_jobs soup) <= length (find_job_containers ([], soup)))
  /\ (find_job_containers ([], soup) = [] ->
      sublist (extract_jobs soup) (omap fallback_row (find_all_href "a" ([], soup)))
      /\ length (extract_jobs soup) <= length (find_all_href "a" ([], soup))).
Proof.
  unfold extract_jobs. split; intros Hc.
  - destruct (find_job_containers ([], soup)) as [|c cs] eqn:Hfind; [done |].
    rewrite container_rows_omap, dedupe_jobs_first_by.
    pose proof (first_by_sublist row_key (omap (container_row soup) (c :: cs)) []) as Hsub.
    split; [exact Hsub |].
    apply sublist_length in Hsub.
    pose proof (omap_length_le (container_row soup) (c :: cs)). lia.
  - rewrite Hc, fallback_rows_omap, dedupe_jobs_first_by.
    pose proof (first_by_sublist row_key
                  (omap fallback_row (find_all_href "a" ([], soup))) []) as Hsub.
    split; [exact Hsub |].
    apply sublist_length in Hsub.
    pose proof (omap_length_le fallback_row (find_all_href "a" ([], soup))). lia.
Qed.

Lemma extract_jobs_rows_in_order_witness :
  length (extract_jobs sample_page) <= length (find_job_containers ([], sample_page))
  /\ length (extract_jobs links_page) <= length (find_all_href "a" ([], links_page)).
Proof.
  split.
  - apply (proj1 (extract_jobs_rows_in_order sample_page)). vm_compute. discriminate.
  - apply (proj2 (extract_jobs_rows_in_order links_page)). reflexivity.
Defined.

(** ** Class hints in general, and containers without a title *)

Section NoTitle.

Lemma title_from_heading_none_inv (node : element) (hs : list string) :
  title_from_heading node hs = None ->
  forall h t, h ∈ hs -> find h node = Some t -> has_title_text t = false.
Proof.
  induction hs as [|h0 hs IH]; intros Hnone h t Hh Hfind; [by apply elem_of_nil in Hh |].
  cbn [title_from_heading] in Hnone.
  apply elem_of_cons in Hh as [-> | Hh].
  - rewrite Hfind in Hnone. by destruct (has_title_text t).
  - destruct (find h0 node) as [t0 |]; [| by apply IH with h].
    destruct (has_title_text t0); [discriminate | by apply IH with h].
Qed.

End NoTitle.

(** X17.  For hints that are not empty and hold no space, the class test
    succeeds exactly when one class token of the element contains one of the
    hints, whatever the case of the token; an element without a [class]
    attribute never passes it. *)
Theorem has_class_like_per_token (e : element) (hints : list string) :
  forallb plain_hint hints = true ->
  (has_class_like e hints = true <->
   exists token hint, token ∈ class_tokens e /\ hint ∈ hints
                      /\ Str.contains hint (Str.lower token) = true)
  /\ (get_class e = None -> has_class_like e hints = false).
Proof.
  intros Hplain. split.
  - rewrite (has_class_like_iff e hints Hplain).
    split; intros (token & hint & H1 & H2 & H3); exists token, hint;
      by rewrite ?list_elem_of_In in *.
  - intros Hnone. apply not_true_iff_false. intros Htrue.
    apply (has_class_like_iff e hints Hplain) in Htrue as (token & _ & Htok & _).
    unfold class_tokens in Htok. rewrite Hnone in Htok. destruct Htok.
Qed.

Lemma has_class_like_per_token_witness :
  has_class_like ([0], sample_card) CONTAINER_HINTS = true
  <-> exists token hint, token ∈ class_tokens ([0], sample_card) /\ hint ∈ CONTAINER_HINTS
                         /\ Str.contains hint (Str.lower token) = true.
Proof.
  apply (proj1 (has_class_like_per_token ([0], sample_card) CONTAINER_HINTS eq_refl)).
Defined.

(** X18.  The Title Extractor returns nothing, and the container is
    skipped, exactly when no hyperlink of the container has a text of five
    characters or more and, at each heading level 1 to 4, the first heading
    is missing or has a text shorter than five characters. *)
Theorem choose_title_none_iff (node : element) :
  choose_title node = None <->
  (forall a, a ∈ descendants node -> is_tag "a" a = true ->
             Str.len (extract_visible_text a) < 5)
  /\ (forall h t, h ∈ HEADINGS -> head (find_all h node) = Some t ->
                  Str.len (extract_visible_text t) < 5).
Proof.
  unfold choose_title. split.
  - destruct (title_from_job_anchor node); [discriminate |].
    destruct (title_from_heading node HEADINGS) eqn:H2; [discriminate |].
    intros H3. split.
    + intros a Ha Ht. apply has_title_text_short.
      apply (proj1 (find_none_iff _ _) H3). by apply find_all_In.
    + intros h t Hh Ht. apply has_title_text_short.
      by apply (title_from_heading_none_inv node HEADINGS H2 h t).
  - intros [Hanchors Hheads].
    assert (H1 : title_from_job_anchor node = None).
    { apply find_none_iff. intros a Ha. apply find_all_href_In in Ha as (Hd & Ht & _).
      apply andb_false_iff. right. apply has_title_text_short. by apply Hanchors. }
    assert (H2 : title_from_heading node HEADINGS = None).
    { apply title_from_heading_none. intros h t Hh Ht.
      apply has_title_text_short. by apply (Hheads h t). }
    rewrite H1, H2. apply find_none_iff. intros a Ha. apply find_all_In in Ha as [Hd Ht].
    apply has_title_text_short. by apply Hanchors.
Qed.

Lemma choose_title_none_iff_witness :
  (forall a, a ∈ descendants ([0], untitled_card) -> is_tag "a" a = true ->
             Str.len (extract_visible_text a) < 5)
  /\ (forall h t, h ∈ HEADINGS -> head (find_all h ([0], untitled_card)) = Some t ->
                  Str.len (extract_visible_text t) < 5).
Proof. apply (proj1 (choose_title_none_iff ([0], untitled_card))). reflexivity. Defined.
